(** * nsinit: the in-namespace container initialisation sequence

    A shallow embedding of [pkg/libcontainer/nsinit/init.go] (the second
    document of [src/sysinit/sysinit.go]): [Init], [writeUserMappings],
    [RestoreParentDeathSignal], [setupNetwork] and
    [LoadContainerEnvironment].

    The Go code is sequential and talks to the kernel and to sibling
    packages through calls that may fail.  Every such call is recorded
    as an [Event] in the [trace] of a [World]; whether it fails is
    decided by an [Externals] record, whose answers may depend on the
    whole history.  The parts of the process state the functions read
    back (environment, files, parent-death signal) are fields of the
    [World]. *)

From Stdlib Require Import ZArith Ascii DecimalString.
From stdpp Require Import base option list gmap strings.

Open Scope Z_scope.

(** ** Go values *)

(** A Go [error]: [None] is [nil], [Some msg] an error whose [Error()]
    text is [msg]. *)
Definition error : Type := option string.

(** A Go [(T, error)] result pair. *)
Inductive result (A : Type) : Type :=
| Ok (a : A)
| Err (msg : string).
Arguments Ok {A} a.
Arguments Err {A} msg.

(** [%v] of an [int]: decimal digits, with a leading minus sign. *)
Definition itoa (n : Z) : string := NilZero.string_of_int (Z.to_int n).

(** [fmt.Errorf(format, ...)] always builds a non-nil error. *)
Definition Errorf (msg : string) : error := Some msg.

(** [strings.Index(s, sep)] for a one-byte separator: the text before the
    first [sep] and the text after it, when there is one. *)
Fixpoint cut (sep : ascii) (s : string) : option (string * string) :=
  match s with
  | EmptyString => None
  | String c s' =>
      if Ascii.eqb c sep then Some (EmptyString, s')
      else match cut sep s' with
           | Some (a, b) => Some (String c a, b)
           | None => None
           end
  end.

(** [strings.SplitN(s, sep, n)] for a one-byte separator and [n >= 0]:
    at most [n] pieces, the last one holding the unsplit remainder. *)
Fixpoint strings_SplitN (s : string) (sep : ascii) (n : nat) : list string :=
  match n with
  | O => []
  | S O => [s]
  | S n' =>
      match cut sep s with
      | Some (a, b) => a :: strings_SplitN b sep n'
      | None => [s]
      end
  end.

(** [contains_byte c s]: the byte [c] occurs in [s]. *)
Fixpoint contains_byte (c : ascii) (s : string) : bool :=
  match s with
  | EmptyString => false
  | String c' s' => Ascii.eqb c' c || contains_byte c s'
  end.

(** [strings.Contains], by prefixes. *)
Fixpoint strings_Contains (s sub : string) : bool :=
  String.prefix sub s
  || match s with
     | EmptyString => false
     | String _ s' => strings_Contains s' sub
     end.

(** [syscall.WaitStatus] (linux): a 32-bit status word. *)
Definition WaitStatus : Type := Z.

Definition WaitStatus_Exited (w : WaitStatus) : bool :=
  Z.land w 0x7F =? 0.

Definition WaitStatus_ExitStatus (w : WaitStatus) : Z :=
  if WaitStatus_Exited w then Z.land (Z.shiftr w 8) 0xFF else -1.

(** Constants of package [syscall] and [os] on linux. *)
Definition PR_SET_SECUREBITS : Z := 0x1c.
Definition CLONE_NEWUSER : Z := 0x10000000.
Definition CLONE_FILES : Z := 0x400.
Definition SIGCHLD : Z := 0x11.
Definition SIGKILL : Z := 9.
Definition O_CREATE : Z := 0x40.
Definition O_WRONLY : Z := 0x1.
Definition O_APPEND : Z := 0x400.
(** The octal literals [0644] and [0666]. *)
Definition perm_0644 : Z := 6 * 8 ^ 2 + 4 * 8 + 4.
Definition perm_0666 : Z := 6 * 8 ^ 2 + 6 * 8 + 6.

(** ** Container configuration *)

(** [libcontainer.Context]: a [map[string]string].  Reading a missing key
    gives the empty string. *)
Abbreviation Context := (gmap string string).

Definition ctx_get (c : Context) (k : string) : string := default "" (c !! k).

(** Modelled from the spec: the [libcontainer.Network] struct is declared
    outside this file; an endpoint has a declared type string and the
    address, gateway and MTU its strategy configures. *)
Record Network : Type := {
  Type_ : string;
  Address : string;
  Gateway : string;
  Mtu : Z
}.

(** Modelled from the spec: the [libcontainer.Container] struct is declared
    outside this file; these are the fields the functions below read. *)
Record Container : Type := {
  Hostname : string;
  User : string;
  WorkingDir : string;
  Env : list string;
  Networks : list Network;
  Context_ : Context
}.

(** A [*SyncPipe], identified by its descriptor. *)
Record SyncPipe : Type := { pipe_fd : Z }.

(** A [network.NetworkStrategy] value of the registry. *)
Record NetworkStrategy : Type := { strategy_name : string }.

(** ** The world *)

(** How an [ioutil.WriteFile] ends: it opens the file with
    [O_WRONLY|O_CREATE|O_TRUNC], writes and closes.  A failure either
    happens at the open, leaving the file alone, or later, leaving
    whatever part of the data got through. *)
Inductive write_result : Type :=
| Written
| OpenFailed (msg : string)
| WriteFailed (msg : string) (partial : string).

(** A call that left the process, with its arguments and, where the callee
    can fail, what it answered. *)
Inductive Event : Type :=
| EvResolveRootfs (path : string) (r : result string)
| EvClearenv
| EvSetenv (key value : string) (r : error)
| EvReadFromParent (p : SyncPipe) (r : result Context)
| EvPipeClose (p : SyncPipe)
| EvOpenAndDup (console : string) (r : error)
| EvSetsid (r : error)
| EvSetctty (r : error)
| EvInitialize (s : NetworkStrategy) (config : Network) (context : Context)
               (r : error)
| EvLabelInit
| EvInitializeMountNamespace (rootfs console : string) (container : Container)
                             (r : error)
| EvSethostname (name : string) (r : error)
| EvOpenFile (path : string) (flags perm : Z) (r : result Z)
| EvLockOSThread
| EvApplyProfile (name : string) (r : error)
| EvSetProcessLabel (label : string) (r : error)
| EvRestrict (scope : string) (r : error)
| EvGetParentDeathSignal (r : result Z)
| EvParentDeathSignal (sig : Z) (r : error)
| EvKill (pid sig : Z) (r : error)
| EvPrctl (option arg2 arg3 arg4 arg5 : Z) (r : error)
| EvSetuid (uid : Z) (r : error)
| EvSetgid (gid : Z) (r : error)
| EvNewSyncPipe (r : result SyncPipe)
| EvClone (flags : Z) (r : result Z)
| EvPrintln (line : string)
| EvFindProcess (pid : Z) (r : result Z)
| EvWriteFile (path data : string) (perm : Z) (r : write_result)
| EvWait (pid : Z) (r : result WaitStatus)
| EvExit (code : Z)
| EvExec (argv0 : string) (argv envv : list string) (r : error).

Record File : Type := { data : string; mode : Z }.

Record World : Type := {
  environ : gmap string string;   (* the process environment *)
  files : gmap string File;       (* files by path *)
  umask : Z;                      (* the file mode creation mask *)
  pdeathsig : Z;                  (* PR_GET_PDEATHSIG *)
  self_pid : Z;                   (* getpid() *)
  parent_pid : Z;                 (* getppid() *)
  trace : list Event              (* calls made so far, oldest first *)
}.

Definition log (e : Event) (w : World) : World :=
  {| environ := environ w; files := files w; umask := umask w;
     pdeathsig := pdeathsig w; self_pid := self_pid w;
     parent_pid := parent_pid w; trace := trace w ++ [e] |}.

Definition set_environ (m : gmap string string) (w : World) : World :=
  {| environ := m; files := files w; umask := umask w;
     pdeathsig := pdeathsig w; self_pid := self_pid w;
     parent_pid := parent_pid w; trace := trace w |}.

Definition set_files (m : gmap string File) (w : World) : World :=
  {| environ := environ w; files := m; umask := umask w;
     pdeathsig := pdeathsig w; self_pid := self_pid w;
     parent_pid := parent_pid w; trace := trace w |}.

Definition set_pdeathsig (s : Z) (w : World) : World :=
  {| environ := environ w; files := files w; umask := umask w;
     pdeathsig := s; self_pid := self_pid w;
     parent_pid := parent_pid w; trace := trace w |}.

(** What the callees outside this file answer.  Each answer may depend on
    the arguments and on the world at the time of the call. *)
Record Externals : Type := {
  on_ResolveRootfs : string -> World -> result string;
  on_Setenv : string -> string -> World -> error;
  on_ReadFromParent : SyncPipe -> World -> result Context;
  on_OpenAndDup : string -> World -> error;
  on_Setsid : World -> error;
  on_Setctty : World -> error;
  on_GetStrategy : string -> result NetworkStrategy;
  on_Initialize : NetworkStrategy -> Network -> Context -> World -> error;
  on_InitializeMountNamespace : string -> string -> Container -> World -> error;
  on_Sethostname : string -> World -> error;
  on_OpenFile : string -> Z -> Z -> World -> result Z;
  on_ApplyProfile : string -> World -> error;
  on_SetProcessLabel : string -> World -> error;
  on_Restrict : string -> World -> error;
  on_GetParentDeathSignal : World -> error;
  on_ParentDeathSignal : Z -> World -> error;
  on_Kill : Z -> Z -> World -> error;
  on_Prctl : Z -> Z -> Z -> Z -> Z -> World -> error;
  on_Setuid : Z -> World -> error;
  on_Setgid : Z -> World -> error;
  on_NewSyncPipe : World -> result SyncPipe;
  on_Clone : Z -> World -> result Z;
  on_FindProcess : Z -> World -> error;
  on_WriteFile : string -> string -> Z -> World -> write_result;
  on_Wait : Z -> World -> result WaitStatus;
  on_Exec : string -> list string -> list string -> World -> error
}.

(** ** Control flow of a Go function body *)

(** A statement either falls through with a value or returns from the
    enclosing function. *)
Inductive flow (R A : Type) : Type :=
| Next (a : A)
| Return (r : R).
Arguments Next {R A} a.
Arguments Return {R A} r.

Definition Go (R A : Type) : Type := World -> flow R A * World.

Definition pure {R A} (a : A) : Go R A := fun w => (Next a, w).

Definition ret {R A} (r : R) : Go R A := fun w => (Return r, w).

Definition bind {R A B} (m : Go R A) (k : A -> Go R B) : Go R B :=
  fun w =>
    match m w with
    | (Next a, w') => k a w'
    | (Return r, w') => (Return r, w')
    end.

(** A whole function body: falling off the end gives the last value. *)
Definition body {R} (m : Go R R) (w : World) : R * World :=
  match m w with
  | (Next r, w') => (r, w')
  | (Return r, w') => (r, w')
  end.

(** Calling another Go function of this file. *)
Definition call {R A} (f : World -> A * World) : Go R A :=
  fun w => let '(a, w') := f w in (Next a, w').

(** Calling a callee outside this file: its answer, and the call logged
    with it. *)
Definition ext {R A} (e : A -> Event) (answer : World -> A) : Go R A :=
  fun w => let a := answer w in (Next a, log (e a) w).

(** The same for a callee that answers nothing. *)
Definition ext_ {R} (e : Event) : Go R unit :=
  fun w => (Next tt, log e w).

Declare Scope go_scope.
Delimit Scope go_scope with go.
Notation "x <- m ;; k" := (bind m (fun x => k))
  (at level 100, m at next level, right associativity) : go_scope.
Notation "m ;; k" := (bind m (fun _ => k))
  (at level 100, right associativity) : go_scope.
Open Scope go_scope.

Definition return_if_err {R} (err : error) (f : string -> R) : Go R unit :=
  match err with
  | Some e => ret (f e)
  | None => pure tt
  end.

Definition when {R} (b : bool) (m : Go R unit) : Go R unit :=
  if b then m else pure tt.

(** [for _, x := range l { f x }] *)
Fixpoint range {R A} (l : list A) (f : A -> Go R unit) : Go R unit :=
  match l with
  | [] => pure tt
  | x :: l' => f x ;; range l' f
  end.

(** [uintptr(n)] of an [int] on a 64-bit platform. *)
Definition uintptr (n : Z) : Z := n mod 2 ^ 64.

(** How a run of [Init] ends for the process that runs it. *)
Inductive outcome : Type :=
| Returned (err : error)   (* back in the caller, with this error *)
| Exited (code : Z)        (* [os.Exit(code)] *)
| Replaced                 (* [syscall.Exec] succeeded *)
| Panicked.                (* index out of range *)

Section nsinit.

Variable X : Externals.

(** ** The callees *)

Definition utils_ResolveRootfs {R} (uncleanRootfs : string) : Go R (result string) :=
  ext (EvResolveRootfs uncleanRootfs) (on_ResolveRootfs X uncleanRootfs).

Definition os_Clearenv {R} : Go R unit :=
  fun w => (Next tt, set_environ ∅ (log EvClearenv w)).

Definition os_Setenv {R} (key value : string) : Go R error :=
  fun w =>
    let err := on_Setenv X key value w in
    let w' := log (EvSetenv key value err) w in
    match err with
    | None => (Next None, set_environ (<[key := value]> (environ w)) w')
    | Some _ => (Next err, w')
    end.

Definition SyncPipe_ReadFromParent {R} (p : SyncPipe) : Go R (result Context) :=
  ext (EvReadFromParent p) (on_ReadFromParent X p).

Definition SyncPipe_Close {R} (p : SyncPipe) : Go R unit :=
  ext_ (EvPipeClose p).

Definition console_OpenAndDup {R} (consolePath : string) : Go R error :=
  ext (EvOpenAndDup consolePath) (on_OpenAndDup X consolePath).

Definition system_Setsid {R} : Go R error := ext EvSetsid (on_Setsid X).

Definition system_Setctty {R} : Go R error := ext EvSetctty (on_Setctty X).

(** [network.GetStrategy]: the lookup of a type string in the registry of
    package [network], which lives outside this file and is a parameter
    here.  It touches nothing. *)
Definition network_GetStrategy (tpe : string) : result NetworkStrategy :=
  on_GetStrategy X tpe.

Definition strategy_Initialize {R} (s : NetworkStrategy) (config : Network)
    (context : Context) : Go R error :=
  ext (EvInitialize s config context) (on_Initialize X s config context).

Definition label_Init {R} : Go R unit := ext_ EvLabelInit.

Definition mount_InitializeMountNamespace {R} (rootfs consolePath : string)
    (container : Container) : Go R error :=
  ext (EvInitializeMountNamespace rootfs consolePath container)
      (on_InitializeMountNamespace X rootfs consolePath container).

Definition system_Sethostname {R} (name : string) : Go R error :=
  ext (EvSethostname name) (on_Sethostname X name).

Definition os_OpenFile {R} (path : string) (flags perm : Z) : Go R (result Z) :=
  ext (EvOpenFile path flags perm) (on_OpenFile X path flags perm).

Definition runtime_LockOSThread {R} : Go R unit := ext_ EvLockOSThread.

Definition apparmor_ApplyProfile {R} (name : string) : Go R error :=
  ext (EvApplyProfile name) (on_ApplyProfile X name).

Definition label_SetProcessLabel {R} (l : string) : Go R error :=
  ext (EvSetProcessLabel l) (on_SetProcessLabel X l).

Definition restrict_Restrict {R} (scope : string) : Go R error :=
  ext (EvRestrict scope) (on_Restrict X scope).

Definition system_GetParentDeathSignal {R} : Go R (result Z) :=
  ext EvGetParentDeathSignal
      (fun w => match on_GetParentDeathSignal X w with
                | None => Ok (pdeathsig w)
                | Some e => Err e
                end).

Definition system_ParentDeathSignal {R} (sig : Z) : Go R error :=
  fun w =>
    let err := on_ParentDeathSignal X sig w in
    let w' := log (EvParentDeathSignal sig err) w in
    match err with
    | None => (Next None, set_pdeathsig sig w')
    | Some _ => (Next err, w')
    end.

Definition syscall_Getppid {R} : Go R Z := fun w => (Next (parent_pid w), w).

Definition syscall_Getpid {R} : Go R Z := fun w => (Next (self_pid w), w).

Definition syscall_Kill {R} (pid sig : Z) : Go R error :=
  ext (EvKill pid sig) (on_Kill X pid sig).

Definition system_Prctl {R} (option arg2 arg3 arg4 arg5 : Z) : Go R error :=
  ext (EvPrctl option arg2 arg3 arg4 arg5) (on_Prctl X option arg2 arg3 arg4 arg5).

Definition system_Setuid {R} (uid : Z) : Go R error :=
  ext (EvSetuid uid) (on_Setuid X uid).

Definition system_Setgid {R} (gid : Z) : Go R error :=
  ext (EvSetgid gid) (on_Setgid X gid).

Definition NewSyncPipe {R} : Go R (result SyncPipe) :=
  ext EvNewSyncPipe (on_NewSyncPipe X).

Definition system_Clone {R} (flags : Z) : Go R (result Z) :=
  ext (EvClone flags) (on_Clone X flags).

Definition log_Println {R} (line : string) : Go R unit :=
  ext_ (EvPrintln line).

(** [os.FindProcess] hands back a handle on the process, here its pid. *)
Definition os_FindProcess {R} (pid : Z) : Go R (result Z) :=
  ext (EvFindProcess pid)
      (fun w => match on_FindProcess X pid w with
                | None => Ok pid
                | Some e => Err e
                end).

(** [proc.Kill()]: SIGKILL to the process. *)
Definition Process_Kill {R} (proc : Z) : Go R error :=
  ext (EvKill proc SIGKILL) (on_Kill X proc SIGKILL).

Definition Process_Wait {R} (proc : Z) : Go R (result WaitStatus) :=
  ext (EvWait proc) (on_Wait X proc).

(** What [path] holds once [d] went into it: an existing file keeps its
    mode, a new one is created with [perm] less the bits of the file mode
    creation mask ([perm &^ umask]). *)
Definition store (path d : string) (perm mask : Z) (fs : gmap string File)
    : gmap string File :=
  <[path := {| data := d;
               mode := match fs !! path with
                       | Some f => mode f
                       | None => Z.ldiff perm mask
                       end |}]> fs.

Definition ioutil_WriteFile {R} (path d : string) (perm : Z) : Go R error :=
  fun w =>
    let r := on_WriteFile X path d perm w in
    let w' := log (EvWriteFile path d perm r) w in
    match r with
    | Written => (Next None, set_files (store path d perm (umask w) (files w)) w')
    | OpenFailed e => (Next (Some e), w')
    | WriteFailed e part =>
        (Next (Some e), set_files (store path part perm (umask w) (files w)) w')
    end.

Definition os_Exit {A} (code : Z) : Go outcome A :=
  fun w => (Return (Exited code), log (EvExit code) w).

(** [syscall.Exec] comes back only when it failed. *)
Definition syscall_Exec (argv0 : string) (argv envv : list string)
    : Go outcome error :=
  fun w =>
    let err := on_Exec X argv0 argv envv w in
    let w' := log (EvExec argv0 argv envv err) w in
    match err with
    | None => (Return Replaced, w')
    | Some _ => (Next err, w')
    end.

(** ** The functions of the file *)

Definition LoadContainerEnvironment (container : Container)
    : World -> error * World :=
  body (
    os_Clearenv ;;
    range (Env container) (fun pair =>
      let p := strings_SplitN pair "="%char 2 in
      if (length p <? 2)%nat then
        ret (Errorf ("invalid environment '" +:+ pair +:+ "'"))
      else
        err <- os_Setenv (p !!! 0%nat) (p !!! 1%nat) ;;
        return_if_err err (fun _ => err)) ;;
    pure None).

Definition writeUserMappings (pid : Z) (mappings : string)
    : World -> error * World :=
  body (
    range [ "/proc/" +:+ itoa pid +:+ "/uid_map";
            "/proc/" +:+ itoa pid +:+ "/gid_map" ] (fun p =>
      err <- ioutil_WriteFile p mappings perm_0644 ;;
      return_if_err err (fun _ => err)) ;;
    pure None).

Definition RestoreParentDeathSignal (old : Z) : World -> error * World :=
  body (
    (if old =? 0 then ret None else pure tt) ;;
    r <- system_GetParentDeathSignal ;;
    match r with
    | Err err => ret (Errorf ("get parent death signal " +:+ err))
    | Ok current =>
        (if old =? current then ret None else pure tt) ;;
        err <- system_ParentDeathSignal (uintptr old) ;;
        return_if_err err (fun e => Errorf ("set parent death signal " +:+ e)) ;;
        ppid <- syscall_Getppid ;;
        if ppid =? 1 then
          self <- syscall_Getpid ;;
          err <- syscall_Kill self old ;;
          ret err
        else
          pure None
    end).

Definition setupNetwork (container : Container) (context : Context)
    : World -> error * World :=
  body (
    range (Networks container) (fun config =>
      match network_GetStrategy (Type_ config) with
      | Err err => ret (Some err)
      | Ok strategy =>
          err1 <- strategy_Initialize strategy config context ;;
          return_if_err err1 (fun _ => err1)
      end) ;;
    pure None).

Definition dockerRootUid : Z := 1017.
Definition dockerRootGid : Z := 1017.
Definition secbit_keep_caps : Z := 4.
Definition secbit_no_setuid_fixup : Z := 2.

Definition Init (container : Container) (uncleanRootfs consolePath : string)
    (syncPipe : SyncPipe) (args : list string) : World -> outcome * World :=
  body (
    r <- utils_ResolveRootfs uncleanRootfs ;;
    match r with
    | Err err => ret (Returned (Some err))
    | Ok rootfs =>
    err <- call (LoadContainerEnvironment container) ;;
    return_if_err err (fun _ => Returned err) ;;
    r <- SyncPipe_ReadFromParent syncPipe ;;
    match r with
    | Err err => SyncPipe_Close syncPipe ;; ret (Returned (Some err))
    | Ok context =>
    SyncPipe_Close syncPipe ;;
    when (negb (String.eqb consolePath ""))
      (err <- console_OpenAndDup consolePath ;;
       return_if_err err (fun _ => Returned err)) ;;
    err <- system_Setsid ;;
    return_if_err err (fun e => Returned (Errorf ("setsid " +:+ e))) ;;
    when (negb (String.eqb consolePath ""))
      (err <- system_Setctty ;;
       return_if_err err (fun e => Returned (Errorf ("setctty " +:+ e)))) ;;
    err <- call (setupNetwork container context) ;;
    return_if_err err (fun e => Returned (Errorf ("setup networking " +:+ e))) ;;
    label_Init ;;
    err <- mount_InitializeMountNamespace rootfs consolePath container ;;
    return_if_err err (fun e => Returned (Errorf ("setup mount namespace " +:+ e))) ;;
    when (negb (String.eqb (Hostname container) ""))
      (err <- system_Sethostname (Hostname container) ;;
       return_if_err err (fun e => Returned (Errorf ("sethostname " +:+ e)))) ;;
    r <- os_OpenFile "/tmp/nsinit.log"
           (Z.lor (Z.lor O_CREATE O_WRONLY) O_APPEND) perm_0666 ;;
    match r with
    | Err _ => ret (Returned None)
    | Ok logFile =>
    runtime_LockOSThread ;;
    err <- apparmor_ApplyProfile (ctx_get (Context_ container) "apparmor_profile") ;;
    return_if_err err (fun e =>
      Returned (Errorf ("set apparmor profile "
                        +:+ ctx_get (Context_ container) "apparmor_profile"
                        +:+ ": " +:+ e))) ;;
    err <- label_SetProcessLabel (ctx_get (Context_ container) "process_label") ;;
    return_if_err err (fun e => Returned (Errorf ("set process label " +:+ e))) ;;
    when (negb (String.eqb (ctx_get (Context_ container) "restrictions") ""))
      (err <- restrict_Restrict "sys" ;;
       return_if_err err (fun _ => Returned err)) ;;
    r <- system_GetParentDeathSignal ;;
    match r with
    | Err err => ret (Returned (Errorf ("get parent death signal " +:+ err)))
    | Ok pdeathSignal =>
    err <- call (RestoreParentDeathSignal pdeathSignal) ;;
    return_if_err err (fun e =>
      Returned (Errorf ("restore parent death signal " +:+ e))) ;;
    err <- system_Prctl PR_SET_SECUREBITS
             (uintptr (Z.lor secbit_keep_caps secbit_no_setuid_fixup)) 0 0 0 ;;
    return_if_err err (fun e => Returned (Errorf ("prctl " +:+ e))) ;;
    err <- system_Setuid dockerRootUid ;;
    return_if_err err (fun e => Returned (Errorf ("setuid " +:+ e))) ;;
    err <- system_Setgid dockerRootGid ;;
    return_if_err err (fun e => Returned (Errorf ("setgid " +:+ e))) ;;
    r <- NewSyncPipe ;;
    match r with
    | Err err => ret (Returned (Some err))
    | Ok sPipe =>
    r <- system_Clone
           (uintptr (Z.lor (Z.lor CLONE_NEWUSER CLONE_FILES) SIGCHLD)) ;;
    match r with
    | Err err => ret (Returned (Errorf ("userns clone: " +:+ err)))
    | Ok pid =>
    when (negb (pid =? 0))
      (log_Println "In parent." ;;
       r <- os_FindProcess pid ;;
       match r with
       | Err err => ret (Returned (Some err))
       | Ok proc =>
       let mappings := "0 " +:+ itoa dockerRootUid +:+ " 1" in
       err <- call (writeUserMappings pid mappings) ;;
       match err with
       | Some e =>
           Process_Kill proc ;;
           ret (Returned (Errorf ("Failed to write mappings: " +:+ e)))
       | None =>
       SyncPipe_Close sPipe ;;
       r <- Process_Wait proc ;;
       match r with
       | Err err =>
           Process_Kill proc ;;
           ret (Returned (Errorf ("wait: " +:+ err)))
       | Ok state => os_Exit (WaitStatus_ExitStatus state)
       end end end) ;;
    log_Println "In child." ;;
    SyncPipe_Close sPipe ;;
    match args with
    | [] => ret Panicked
    | argv0 :: _ =>
        err <- syscall_Exec argv0 args (Env container) ;;
        pure (Returned err)
    end
    end end end end end end).

End nsinit.

(** * Vocabulary of the properties *)

(** ** Files and environment *)

(** The two mapping files of process [pid]. *)
Definition uid_map (pid : Z) : string := "/proc/" +:+ itoa pid +:+ "/uid_map".

Definition gid_map (pid : Z) : string := "/proc/" +:+ itoa pid +:+ "/gid_map".

Arguments uid_map : simpl never.
Arguments gid_map : simpl never.

(** The error an [ioutil.WriteFile] reports. *)
Definition write_error (r : write_result) : error :=
  match r with
  | Written => None
  | OpenFailed e => Some e
  | WriteFailed e _ => Some e
  end.

(** The key and value [LoadContainerEnvironment] takes from an entry. *)
Definition declared (pair : string) : string * string :=
  match cut "=" pair with
  | Some kv => kv
  | None => (pair, "")
  end.

(** The world once [os.Setenv] took one more entry. *)
Definition applied1 (w : World) (pair : string) : World :=
  set_environ (<[(declared pair).1 := (declared pair).2]> (environ w))
    (log (EvSetenv (declared pair).1 (declared pair).2 None) w).

(** The world after [os.Clearenv] and a successful [os.Setenv] of each of
    [pre], in order. *)
Definition applied (pre : list string) (w : World) : World :=
  foldl applied1 (set_environ ∅ (log EvClearenv w)) pre.

(** ** The loops *)

Section loops.

Variable X : Externals.

(** The body of the loop over [container.Env]. *)
Definition env_step (pair : string) : Go error unit :=
  let p := strings_SplitN pair "="%char 2 in
  if (length p <? 2)%nat then
    ret (Errorf ("invalid environment '" +:+ pair +:+ "'"))
  else
    err <- os_Setenv X (p !!! 0%nat) (p !!! 1%nat) ;;
    return_if_err err (fun _ => err).

Variable context : Context.

(** The body of the loop over [container.Networks]. *)
Definition net_step (config : Network) : Go error unit :=
  match network_GetStrategy X (Type_ config) with
  | Err err => ret (Some err)
  | Ok strategy =>
      err1 <- strategy_Initialize X strategy config context ;;
      return_if_err err1 (fun _ => err1)
  end.

(** [e] is one call of the strategy registered for [config]'s type, with
    [config] and the handshake payload. *)
Definition invoked (config : Network) (e : Event) : Prop :=
  exists s r, on_GetStrategy X (Type_ config) = Ok s
              /\ e = EvInitialize s config context r.

Definition invoked_ok (config : Network) (e : Event) : Prop :=
  exists s, on_GetStrategy X (Type_ config) = Ok s
            /\ e = EvInitialize s config context None.

Definition unregistered (config : Network) : Prop :=
  exists e, on_GetStrategy X (Type_ config) = Err e.

End loops.

(** ** Kinds of calls *)

(** Events of the environment reconstruction. *)
Definition env_event (e : Event) : Prop :=
  match e with
  | EvClearenv | EvSetenv _ _ _ => True
  | _ => False
  end.

(** Events of the dispatch: calls of [Initialize]. *)
Definition net_event (e : Event) : Prop :=
  match e with
  | EvInitialize _ _ _ _ => True
  | _ => False
  end.

(** Events of the parent-death-signal guardian. *)
Definition pdeath_event (e : Event) : Prop :=
  match e with
  | EvGetParentDeathSignal _ | EvParentDeathSignal _ _ | EvKill _ _ _ => True
  | _ => False
  end.

(** Calls of the set-up steps, up to the restoration of the parent-death
    signal. *)
Definition setup_event (e : Event) : Prop :=
  match e with
  | EvPrctl _ _ _ _ _ _ | EvSetuid _ _ | EvSetgid _ _ | EvNewSyncPipe _
  | EvClone _ _ | EvPrintln _ | EvFindProcess _ _ | EvWriteFile _ _ _ _
  | EvWait _ _ | EvExit _ | EvExec _ _ _ _ => False
  | _ => True
  end.

(** Calls of the escalation sequence, from the securebits on. *)
Definition escalation_event (e : Event) : Prop :=
  match e with
  | EvPrctl _ _ _ _ _ _ | EvSetuid _ _ | EvSetgid _ _ | EvNewSyncPipe _
  | EvClone _ _ | EvPrintln _ | EvFindProcess _ _ | EvWriteFile _ _ _ _
  | EvWait _ _ | EvExit _ | EvExec _ _ _ _ => True
  | _ => False
  end.

(** Calls of the steps up to and including the dispatch. *)
Definition before_mount (e : Event) : Prop :=
  match e with
  | EvResolveRootfs _ _ | EvClearenv | EvSetenv _ _ _ | EvReadFromParent _ _
  | EvPipeClose _ | EvOpenAndDup _ _ | EvSetsid _ | EvSetctty _
  | EvInitialize _ _ _ _ => True
  | _ => False
  end.

(** Calls that switch the identity of the process. *)
Definition identity_switch (e : Event) : Prop :=
  match e with
  | EvSetuid _ _ | EvSetgid _ _ => True
  | _ => False
  end.

(** An identity switch that the kernel refused. *)
Definition failed_switch (e : Event) : Prop :=
  match e with
  | EvSetuid _ (Some _) | EvSetgid _ (Some _) => True
  | _ => False
  end.

(** Writes through [ioutil.WriteFile]. *)
Definition is_write (e : Event) : bool :=
  match e with EvWriteFile _ _ _ _ => true | _ => false end.

(** [guarded g b l]: reading [l] from its start, no call in [b] comes
    before or at the first call in [g]. *)
Fixpoint guarded (g b : Event -> Prop) (l : list Event) : Prop :=
  match l with
  | [] => True
  | e :: l' => ~ b e /\ (g e \/ guarded g b l')
  end.

(** Calls that change the securebits or the identity of the process. *)
Definition privilege_call (e : Event) : Prop :=
  match e with
  | EvPrctl _ _ _ _ _ _ | EvSetuid _ _ | EvSetgid _ _ => True
  | _ => False
  end.

(** Calls other than those of the dispatch. *)
Definition no_dispatch (e : Event) : Prop := ~ net_event e.

(** A run that dispatched: the payload [ctx] was read from the parent on
    [sp], and the calls of [Initialize] are [served], all made between that
    read and [label.Init]; the run holds no other call of [Initialize]. *)
Definition dispatched (sp : SyncPipe) (ctx : Context) (served evs : list Event)
    : Prop :=
  exists l1 l2 l3,
    evs = l1 ++ EvReadFromParent sp (Ok ctx) :: l2
            ++ served ++ EvLabelInit :: l3
    /\ Forall no_dispatch l1 /\ Forall no_dispatch l2 /\ Forall no_dispatch l3.

(** From the read on: the calls up to the dispatch, the dispatch, and the
    rest. *)
Definition dispatch_tail (served evs : list Event) : Prop :=
  exists l2 l3,
    evs = l2 ++ served ++ EvLabelInit :: l3
    /\ Forall no_dispatch l2 /\ Forall no_dispatch l3.

(** ** The shape of a run of [Init] *)

(** The writes [writeUserMappings pid mappings] makes, by its result. *)
Inductive mapping_writes (pid : Z) (mappings : string) : error -> list Event -> Prop :=
| uid_map_failed (r : write_result) (e : string) :
    write_error r = Some e ->
    mapping_writes pid mappings (Some e)
      [EvWriteFile (uid_map pid) mappings perm_0644 r]
| gid_map_failed (r : write_result) (e : string) :
    write_error r = Some e ->
    mapping_writes pid mappings (Some e)
      [EvWriteFile (uid_map pid) mappings perm_0644 Written;
       EvWriteFile (gid_map pid) mappings perm_0644 r]
| both_written :
    mapping_writes pid mappings None
      [EvWriteFile (uid_map pid) mappings perm_0644 Written;
       EvWriteFile (gid_map pid) mappings perm_0644 Written].

Definition securebits : Z :=
  uintptr (Z.lor secbit_keep_caps secbit_no_setuid_fixup).

Definition clone_flags : Z :=
  uintptr (Z.lor (Z.lor CLONE_NEWUSER CLONE_FILES) SIGCHLD).

(** The line written to both mapping files. *)
Definition mapping_line : string := "0 " +:+ itoa dockerRootUid +:+ " 1".

Definition prctl_call (r : error) : Event :=
  EvPrctl PR_SET_SECUREBITS securebits 0 0 0 r.

(** Securebits set, identity switched, nested pipe made and clone answered
    [pid]; then [rest]. *)
Definition spawned (sPipe : SyncPipe) (pid : Z) (rest : list Event) : list Event :=
  prctl_call None :: EvSetuid dockerRootUid None :: EvSetgid dockerRootGid None
  :: EvNewSyncPipe (Ok sPipe) :: EvClone clone_flags (Ok pid) :: rest.

(** In the parent: found the child and attempted the mappings [ws]. *)
Definition mapped (sPipe : SyncPipe) (pid : Z) (ws rest : list Event) : list Event :=
  spawned sPipe pid
    (EvPrintln "In parent." :: EvFindProcess pid (Ok pid) :: ws ++ rest).

(** The ways the escalation sequence, from the securebits on, can go. *)
Inductive escalation (c : Container) (args : list string)
  : outcome -> list Event -> Prop :=
| esc_prctl e :
    escalation c args (Returned (Some ("prctl " +:+ e))) [prctl_call (Some e)]
| esc_setuid e :
    escalation c args (Returned (Some ("setuid " +:+ e)))
      [prctl_call None; EvSetuid dockerRootUid (Some e)]
| esc_setgid e :
    escalation c args (Returned (Some ("setgid " +:+ e)))
      [prctl_call None; EvSetuid dockerRootUid None;
       EvSetgid dockerRootGid (Some e)]
| esc_pipe e :
    escalation c args (Returned (Some e))
      [prctl_call None; EvSetuid dockerRootUid None;
       EvSetgid dockerRootGid None; EvNewSyncPipe (Err e)]
| esc_clone sPipe e :
    escalation c args (Returned (Some ("userns clone: " +:+ e)))
      [prctl_call None; EvSetuid dockerRootUid None;
       EvSetgid dockerRootGid None; EvNewSyncPipe (Ok sPipe);
       EvClone clone_flags (Err e)]
| esc_find sPipe pid e :
    pid <> 0 ->
    escalation c args (Returned (Some e))
      (spawned sPipe pid [EvPrintln "In parent."; EvFindProcess pid (Err e)])
| esc_mapping sPipe pid e ws k :
    pid <> 0 ->
    mapping_writes pid mapping_line (Some e) ws ->
    escalation c args (Returned (Some ("Failed to write mappings: " +:+ e)))
      (mapped sPipe pid ws [EvKill pid SIGKILL k])
| esc_wait sPipe pid e ws k :
    pid <> 0 ->
    mapping_writes pid mapping_line None ws ->
    escalation c args (Returned (Some ("wait: " +:+ e)))
      (mapped sPipe pid ws
         [EvPipeClose sPipe; EvWait pid (Err e); EvKill pid SIGKILL k])
| esc_exit sPipe pid st ws :
    pid <> 0 ->
    mapping_writes pid mapping_line None ws ->
    escalation c args (Exited (WaitStatus_ExitStatus st))
      (mapped sPipe pid ws
         [EvPipeClose sPipe; EvWait pid (Ok st);
          EvExit (WaitStatus_ExitStatus st)])
| esc_panic sPipe :
    args = [] ->
    escalation c args Panicked
      (spawned sPipe 0 [EvPrintln "In child."; EvPipeClose sPipe])
| esc_exec_failed sPipe argv0 rest e :
    args = argv0 :: rest ->
    escalation c args (Returned (Some e))
      (spawned sPipe 0
         [EvPrintln "In child."; EvPipeClose sPipe;
          EvExec argv0 args (Env c) (Some e)])
| esc_exec sPipe argv0 rest :
    args = argv0 :: rest ->
    escalation c args Replaced
      (spawned sPipe 0
         [EvPrintln "In child."; EvPipeClose sPipe;
          EvExec argv0 args (Env c) None]).

(** The flags [Init] opens its log file with. *)
Definition log_flags : Z := Z.lor (Z.lor O_CREATE O_WRONLY) O_APPEND.

(** A whole run: set-up calls, then either a stop with an error, the
    return of nil when the log file cannot be opened, or the escalation. *)
Inductive Init_run (c : Container) (args : list string)
  : outcome -> list Event -> Prop :=
| run_setup e evs out :
    setup_event e -> Init_run c args out evs -> Init_run c args out (e :: evs)
| run_stopped e :
    Init_run c args (Returned (Some e)) []
| run_nolog e :
    Init_run c args (Returned None)
      [EvOpenFile "/tmp/nsinit.log" log_flags perm_0666 (Err e)]
| run_escalation out post :
    escalation c args out post -> Init_run c args out post.

(** What a run that meets an unregistered network type looks like: it
    ends with an error, after calls of the steps up to the dispatch only;
    and when the dispatch itself was reached, the error is the one of the
    dispatch. *)
Definition stops_at_dispatch (o : outcome) (evs : list Event) : Prop :=
  exists e,
    o = Returned (Some e)
    /\ Forall before_mount evs
    /\ (EvSetsid None ∈ evs -> (forall e', EvSetctty (Some e') ∉ evs) ->
        exists e', e = "setup networking " +:+ e').

(** Every [Initialize] of a run is given an endpoint of the container, the
    strategy registered for its type, and the payload read from the
    parent. *)
Definition payload_calls (X : Externals) (c : Container) (sp : SyncPipe)
    (o : outcome) (evs : list Event) : Prop :=
  forall s cfg ctx r,
    EvInitialize s cfg ctx r ∈ evs ->
    EvReadFromParent sp (Ok ctx) ∈ evs
    /\ cfg ∈ Networks c
    /\ on_GetStrategy X (Type_ cfg) = Ok s.

(** ** The calls a body makes *)

(** [emits m Qn Qr]: from any world, [m] appends calls [evs] to the trace,
    and [Qn a evs] holds when it falls through with [a], [Qr r evs] when it
    returns [r]. *)
Definition emits {R A} (m : Go R A)
    (Qn : A -> list Event -> Prop) (Qr : R -> list Event -> Prop) : Prop :=
  forall w, exists evs,
    trace (m w).2 = trace w ++ evs
    /\ match (m w).1 with
       | Next a => Qn a evs
       | Return r => Qr r evs
       end.

(** ** A concrete platform, to run the functions on *)

Section sample.

Variables (types : list string) (openlog : result Z) (setuid : error)
          (clone : result Z) (write : string -> write_result)
          (wait : result WaitStatus).

(** Every callee succeeds, except where a parameter says otherwise:
    [types] are the registered network types, [write] decides each
    [ioutil.WriteFile] by its path, and [os.Setenv] rejects an empty
    key as the Go runtime does. *)
Definition sample : Externals := {|
  on_ResolveRootfs := fun p _ => Ok p;
  on_Setenv := fun k _ _ =>
    if String.eqb k "" then Some "setenv: invalid argument" else None;
  on_ReadFromParent := fun _ _ => Ok ∅;
  on_OpenAndDup := fun _ _ => None;
  on_Setsid := fun _ => None;
  on_Setctty := fun _ => None;
  on_GetStrategy := fun t =>
    if bool_decide (t ∈ types) then Ok {| strategy_name := t |}
    else Err "not a valid network strategy type";
  on_Initialize := fun _ _ _ _ => None;
  on_InitializeMountNamespace := fun _ _ _ _ => None;
  on_Sethostname := fun _ _ => None;
  on_OpenFile := fun _ _ _ _ => openlog;
  on_ApplyProfile := fun _ _ => None;
  on_SetProcessLabel := fun _ _ => None;
  on_Restrict := fun _ _ => None;
  on_GetParentDeathSignal := fun _ => None;
  on_ParentDeathSignal := fun _ _ => None;
  on_Kill := fun _ _ _ => None;
  on_Prctl := fun _ _ _ _ _ _ => None;
  on_Setuid := fun _ _ => setuid;
  on_Setgid := fun _ _ => None;
  on_NewSyncPipe := fun _ => Ok {| pipe_fd := 5 |};
  on_Clone := fun _ _ => clone;
  on_FindProcess := fun _ _ => None;
  on_WriteFile := fun p _ _ _ => write p;
  on_Wait := fun _ _ => wait;
  on_Exec := fun _ _ _ _ => None
|}.

End sample.

Definition world0 : World := {|
  environ := {[ "HOME" := "/home/outer" ]};
  files := ∅;
  umask := 18;
  pdeathsig := 0;
  self_pid := 1;
  parent_pid := 0;
  trace := []
|}.

Definition container0 : Container := {|
  Hostname := "box";
  User := "";
  WorkingDir := "";
  Env := ["PATH=/bin"; "HOME=/root"];
  Networks := [ {| Type_ := "veth"; Address := "10.0.0.2/24";
                   Gateway := "10.0.0.1"; Mtu := 1500 |} ];
  Context_ := ∅
|}.

(** The pipe to the outer process. *)
Definition pipe3 : SyncPipe := {| pipe_fd := 3 |}.

(** A platform on which every call succeeds; the child exits with 0. *)
Definition X_calm : Externals :=
  sample ["veth"] (Ok 3) None (Ok 4242) (fun _ => Written) (Ok 0).

(** A platform on which the first [uid_map] write is refused. *)
Definition denied (p : string) : write_result :=
  if String.eqb p (uid_map 4242) then OpenFailed "permission denied" else Written.

Definition X_denied : Externals :=
  sample ["veth"] (Ok 3) None (Ok 4242) denied (Ok 0).

(** A platform whose clone answers the pid of a child that exits with 7. *)
Definition X_exit7 : Externals :=
  sample ["veth"] (Ok 3) None (Ok 4242) (fun _ => Written) (Ok (Z.shiftl 7 8)).

(** A platform that refuses [setuid]. *)
Definition X_nosetuid : Externals :=
  sample ["veth"] (Ok 3) (Some "operation not permitted") (Ok 4242)
    (fun _ => Written) (Ok 0).

(** A platform on which the log file cannot be opened. *)
Definition X_nolog : Externals :=
  sample ["veth"] (Err "open /tmp/nsinit.log: permission denied") None
    (Ok 4242) (fun _ => Written) (Ok 0).

(** A process whose parent is gone: [Getppid()] answers 1. *)
Definition orphan : World := {|
  environ := ∅; files := ∅; umask := 18; pdeathsig := 0;
  self_pid := 77; parent_pid := 1; trace := []
|}.

(** A declared environment whose second entry holds no ['=']. *)
Definition container_bad : Container := {|
  Hostname := "box"; User := ""; WorkingDir := "";
  Env := ["PATH=/bin"; "bad"; "HOME=/root"];
  Networks := []; Context_ := ∅
|}.

(** A declared environment whose second entry has an empty key. *)
Definition container_nokey : Container := {|
  Hostname := "box"; User := ""; WorkingDir := "";
  Env := ["PATH=/bin"; "=value"; "HOME=/root"];
  Networks := []; Context_ := ∅
|}.

(** A container with a registered endpoint and one of an unknown type. *)
Definition container_two : Container := {|
  Hostname := "box"; User := ""; WorkingDir := "";
  Env := ["PATH=/bin"];
  Networks := [ {| Type_ := "veth"; Address := "10.0.0.2/24";
                   Gateway := "10.0.0.1"; Mtu := 1500 |};
                {| Type_ := "bogus"; Address := ""; Gateway := ""; Mtu := 0 |} ];
  Context_ := ∅
|}.

(** ** More vocabulary: environment and files *)

(** An entry of the declared environment that holds an ['=']. *)
Definition well_formed (pair : string) : Prop := contains_byte "=" pair = true.

(** [k] is bound to [v] by the last of the entries [l] that has key [k]. *)
Definition last_binding (l : list string) (k v : string) : Prop :=
  exists l1 pair l2,
    l = l1 ++ pair :: l2
    /\ declared pair = (k, v)
    /\ Forall (fun p => (declared p).1 <> k) l2.

(** A call of the environment reconstruction that belongs to the declared
    entries [l]: the clearing, or the setting of an entry of [l] split at
    its first ['=']. *)
Definition env_call_of (l : list string) (e : Event) : Prop :=
  match e with
  | EvClearenv => True
  | EvSetenv k v _ =>
      exists pair, pair ∈ l /\ pair = k +:+ "=" +:+ v
                   /\ contains_byte "=" k = false
  | _ => False
  end.

(** The part of the world that is neither the trace nor the environment. *)
Definition same_process (w w' : World) : Prop :=
  files w' = files w /\ umask w' = umask w /\ pdeathsig w' = pdeathsig w
  /\ self_pid w' = self_pid w /\ parent_pid w' = parent_pid w.

(** A platform on which the parent-death signal cannot be read. *)
Definition X_nopdeath : Externals := {|
  on_ResolveRootfs := on_ResolveRootfs X_calm;
  on_Setenv := on_Setenv X_calm;
  on_ReadFromParent := on_ReadFromParent X_calm;
  on_OpenAndDup := on_OpenAndDup X_calm;
  on_Setsid := on_Setsid X_calm;
  on_Setctty := on_Setctty X_calm;
  on_GetStrategy := on_GetStrategy X_calm;
  on_Initialize := on_Initialize X_calm;
  on_InitializeMountNamespace := on_InitializeMountNamespace X_calm;
  on_Sethostname := on_Sethostname X_calm;
  on_OpenFile := on_OpenFile X_calm;
  on_ApplyProfile := on_ApplyProfile X_calm;
  on_SetProcessLabel := on_SetProcessLabel X_calm;
  on_Restrict := on_Restrict X_calm;
  on_GetParentDeathSignal := fun _ => Some "invalid argument";
  on_ParentDeathSignal := on_ParentDeathSignal X_calm;
  on_Kill := on_Kill X_calm;
  on_Prctl := on_Prctl X_calm;
  on_Setuid := on_Setuid X_calm;
  on_Setgid := on_Setgid X_calm;
  on_NewSyncPipe := on_NewSyncPipe X_calm;
  on_Clone := on_Clone X_calm;
  on_FindProcess := on_FindProcess X_calm;
  on_WriteFile := on_WriteFile X_calm;
  on_Wait := on_Wait X_calm;
  on_Exec := on_Exec X_calm
|}.

(** Calls that only the parent of the clone makes. *)
Definition parent_only (e : Event) : Prop :=
  match e with
  | EvFindProcess _ _ | EvWriteFile _ _ _ _ | EvWait _ _ | EvExit _ => True
  | _ => False
  end.

(** What [RestoreParentDeathSignal p] does right after [p] was captured:
    nothing for [p = 0], else one more read, which finds [p] again or
    fails. *)
Definition inert_restore (p : Z) (err : error) (evs : list Event) : Prop :=
  (p = 0 /\ evs = [] /\ err = None)
  \/ (evs = [EvGetParentDeathSignal (Ok p)] /\ err = None)
  \/ (exists e, evs = [EvGetParentDeathSignal (Err e)]
                /\ err = Some ("get parent death signal " +:+ e)).

(** A run that installs no parent-death signal, and whose only signals are
    the SIGKILL of a child that a clone answered. *)
Definition no_restore (evs : list Event) : Prop :=
  (forall sig r, EvParentDeathSignal sig r ∉ evs)
  /\ (forall pid sig r,
        EvKill pid sig r ∈ evs ->
        sig = SIGKILL /\ exists flags, EvClone flags (Ok pid) ∈ evs).

(** ** More vocabulary: the order of the steps *)

(** The step of [Init] a call belongs to, in the order of the source.
    Closing a pipe and signalling belong to several steps and have no
    number. *)
Definition stage (e : Event) : option nat :=
  match e with
  | EvResolveRootfs _ _ => Some 0
  | EvClearenv | EvSetenv _ _ _ => Some 1
  | EvReadFromParent _ _ => Some 2
  | EvOpenAndDup _ _ => Some 3
  | EvSetsid _ => Some 4
  | EvSetctty _ => Some 5
  | EvInitialize _ _ _ _ => Some 6
  | EvLabelInit => Some 7
  | EvInitializeMountNamespace _ _ _ _ => Some 8
  | EvSethostname _ _ => Some 9
  | EvOpenFile _ _ _ _ => Some 10
  | EvLockOSThread => Some 11
  | EvApplyProfile _ _ => Some 12
  | EvSetProcessLabel _ _ => Some 13
  | EvRestrict _ _ => Some 14
  | EvGetParentDeathSignal _ | EvParentDeathSignal _ _ => Some 15
  | EvPrctl _ _ _ _ _ _ => Some 16
  | EvSetuid _ _ => Some 17
  | EvSetgid _ _ => Some 18
  | EvNewSyncPipe _ => Some 19
  | EvClone _ _ => Some 20
  | EvPrintln _ => Some 21
  | EvFindProcess _ _ => Some 22
  | EvWriteFile _ _ _ _ => Some 23
  | EvWait _ _ => Some 24
  | EvExit _ | EvExec _ _ _ _ => Some 25
  | EvPipeClose _ | EvKill _ _ _ => None
  end%nat.

(** [staged n l]: from step [n] on, the numbered calls of [l] never go back
    to an earlier step. *)
Fixpoint staged (n : nat) (l : list Event) : Prop :=
  match l with
  | [] => True
  | e :: l' =>
      match stage e with
      | Some m => (n <= m)%nat /\ staged m l'
      | None => staged n l'
      end
  end.

(** Calls of step [s], or of no step. *)
Definition at_stage (s : nat) (e : Event) : Prop :=
  stage e = Some s \/ stage e = None.

(** ** More vocabulary: the arguments of the set-up *)

(** What a call of the set-up of [Init] is given, and the condition of the
    source under which it is made at all; [rootfs] is the answer of
    [ResolveRootfs]. *)
Definition as_configured (c : Container) (consolePath : string)
    (syncPipe : SyncPipe) (rootfs : result string) (e : Event) : Prop :=
  match e with
  | EvReadFromParent p _ => p = syncPipe
  | EvOpenAndDup console _ => console = consolePath /\ consolePath <> ""
  | EvSetctty _ => consolePath <> ""
  | EvInitializeMountNamespace r console container _ =>
      rootfs = Ok r /\ console = consolePath /\ container = c
  | EvSethostname name _ => name = Hostname c /\ name <> ""
  | EvOpenFile path flags perm _ =>
      path = "/tmp/nsinit.log" /\ flags = log_flags /\ perm = perm_0666
  | EvApplyProfile name _ => name = ctx_get (Context_ c) "apparmor_profile"
  | EvSetProcessLabel label _ => label = ctx_get (Context_ c) "process_label"
  | EvRestrict scope _ =>
      scope = "sys" /\ ctx_get (Context_ c) "restrictions" <> ""
  | _ => True
  end.

(** A run of [Init] whose optional steps were made where the configuration
    asks for them: the later step named in each line is reached only over
    the success of the optional one. *)
Definition nothing_skipped (c : Container) (consolePath : string)
    (evs : list Event) : Prop :=
  (consolePath <> "" ->
     (forall r, EvSetsid r ∈ evs -> EvOpenAndDup consolePath None ∈ evs)
     /\ (EvLabelInit ∈ evs -> EvSetctty None ∈ evs))
  /\ (Hostname c <> "" ->
        forall path flags perm r,
          EvOpenFile path flags perm r ∈ evs ->
          EvSethostname (Hostname c) None ∈ evs)
  /\ (ctx_get (Context_ c) "restrictions" <> "" ->
        forall r,
          EvGetParentDeathSignal r ∈ evs -> EvRestrict "sys" None ∈ evs).


(** * The rest of the package: finalisation and [SysInit] *)

(** ** Bodies over any process state *)

(** [Go] with the state left open: the functions below run in processes
    whose calls are not those of [Init]. *)
Definition St (S R A : Type) : Type := S -> flow R A * S.

Definition st_pure {S R A} (a : A) : St S R A := fun s => (Next a, s).

Definition st_ret {S R A} (r : R) : St S R A := fun s => (Return r, s).

Definition st_bind {S R A B} (m : St S R A) (k : A -> St S R B) : St S R B :=
  fun s =>
    match m s with
    | (Next a, s') => k a s'
    | (Return r, s') => (Return r, s')
    end.

Definition st_body {S R} (m : St S R R) (s : S) : R * S :=
  match m s with
  | (Next r, s') => (r, s')
  | (Return r, s') => (r, s')
  end.

Definition st_call {S R A} (f : S -> A * S) : St S R A :=
  fun s => let '(a, s') := f s in (Next a, s').

Definition st_return_if_err {S R} (err : error) (f : string -> R) : St S R unit :=
  match err with
  | Some e => st_ret (f e)
  | None => st_pure tt
  end.

Definition st_when {S R} (b : bool) (m : St S R unit) : St S R unit :=
  if b then m else st_pure tt.

Declare Scope st_scope.
Delimit Scope st_scope with st.
Notation "x <- m ;; k" := (st_bind m (fun x => k))
  (at level 100, m at next level, right associativity) : st_scope.
Notation "m ;; k" := (st_bind m (fun _ => k))
  (at level 100, right associativity) : st_scope.

(** ** [SetupUser] and [FinalizeNamespace] *)

(** A call of the finalisation, with what it answered. *)
Inductive FinalizeCall : Type :=
| CallGetUserGroupSupplementary (u : string) (defaultUid defaultGid : Z)
                                (r : result (Z * Z * list Z))
| CallSetgroups (gids : list Z) (r : error)
| CallSetgid (gid : Z) (r : error)
| CallSetuid (uid : Z) (r : error)
| CallCloseFdsFrom (minFd : Z) (r : error)
| CallChdir (dir : string) (r : error).

(** The process that finalises its namespace. *)
Record Proc : Type := {
  real_uid : Z;                     (* getuid() *)
  real_gid : Z;                     (* getgid() *)
  calls : list FinalizeCall         (* calls made so far, oldest first *)
}.

Definition called (e : FinalizeCall) (p : Proc) : Proc :=
  {| real_uid := real_uid p; real_gid := real_gid p; calls := calls p ++ [e] |}.

(** What the callees of the finalisation answer. *)
Record Finalizers : Type := {
  fin_GetUserGroupSupplementary :
    string -> Z -> Z -> Proc -> result (Z * Z * list Z);
  fin_Setgroups : list Z -> Proc -> error;
  fin_Setgid : Z -> Proc -> error;
  fin_Setuid : Z -> Proc -> error;
  fin_CloseFdsFrom : Z -> Proc -> error;
  fin_Chdir : string -> Proc -> error
}.

Definition fin_ext {R A} (e : A -> FinalizeCall) (answer : Proc -> A)
    : St Proc R A :=
  fun p => let a := answer p in (Next a, called (e a) p).

Section finalize.

Local Open Scope st_scope.

Variable F : Finalizers.

Definition fin_Getuid {R} : St Proc R Z := fun p => (Next (real_uid p), p).

Definition fin_Getgid {R} : St Proc R Z := fun p => (Next (real_gid p), p).

Definition user_GetUserGroupSupplementary {R} (u : string)
    (defaultUid defaultGid : Z) : St Proc R (result (Z * Z * list Z)) :=
  fin_ext (CallGetUserGroupSupplementary u defaultUid defaultGid)
          (fin_GetUserGroupSupplementary F u defaultUid defaultGid).

Definition fsystem_Setgroups {R} (gids : list Z) : St Proc R error :=
  fin_ext (CallSetgroups gids) (fin_Setgroups F gids).

Definition fsystem_Setgid {R} (gid : Z) : St Proc R error :=
  fin_ext (CallSetgid gid) (fin_Setgid F gid).

Definition fsystem_Setuid {R} (uid : Z) : St Proc R error :=
  fin_ext (CallSetuid uid) (fin_Setuid F uid).

Definition fsystem_CloseFdsFrom {R} (minFd : Z) : St Proc R error :=
  fin_ext (CallCloseFdsFrom minFd) (fin_CloseFdsFrom F minFd).

Definition fsystem_Chdir {R} (dir : string) : St Proc R error :=
  fin_ext (CallChdir dir) (fin_Chdir F dir).

Definition SetupUser (u : string) : Proc -> error * Proc :=
  st_body (
    defaultUid <- fin_Getuid ;;
    defaultGid <- fin_Getgid ;;
    r <- user_GetUserGroupSupplementary u defaultUid defaultGid ;;
    match r with
    | Err err => st_ret (Errorf ("get supplementary groups " +:+ err))
    | Ok (uid, gid, suppGids) =>
        err <- fsystem_Setgroups suppGids ;;
        st_return_if_err err (fun e => Errorf ("setgroups " +:+ e)) ;;
        err <- fsystem_Setgid gid ;;
        st_return_if_err err (fun e => Errorf ("setgid " +:+ e)) ;;
        err <- fsystem_Setuid uid ;;
        st_return_if_err err (fun e => Errorf ("setuid " +:+ e)) ;;
        st_pure None
    end).

Definition FinalizeNamespace (container : Container) : Proc -> error * Proc :=
  st_body (
    err <- fsystem_CloseFdsFrom 3 ;;
    st_return_if_err err (fun e => Errorf ("close open file descriptors " +:+ e)) ;;
    err <- st_call (SetupUser (User container)) ;;
    st_return_if_err err (fun e => Errorf ("setup user " +:+ e)) ;;
    st_when (negb (String.eqb (WorkingDir container) ""))
      (err <- fsystem_Chdir (WorkingDir container) ;;
       st_return_if_err err (fun e =>
         Errorf ("chdir to " +:+ WorkingDir container +:+ " " +:+ e))) ;;
    st_pure None).

End finalize.

(** Calls of the identity change. *)
Definition identity_call (e : FinalizeCall) : Prop :=
  match e with
  | CallCloseFdsFrom _ _ | CallChdir _ _ => False
  | _ => True
  end.

(** ** [SysInit] and [executeProgram] *)

(** [execdriver.InitArgs], by the fields the literal in [SysInit] fills. *)
Record InitArgs : Type := {
  ia_User : string;
  ia_Gateway : string;
  ia_Ip : string;
  ia_WorkDir : string;
  ia_Privileged : bool;
  ia_Args : list string;
  ia_Mtu : Z;
  ia_Driver : string;
  ia_Console : string;
  ia_Pipe : Z;
  ia_Root : string
}.

(** The values of the flags [SysInit] declares. *)
Record Flags : Type := {
  fl_user : string;         (* -u *)
  fl_gateway : string;      (* -g *)
  fl_ip : string;           (* -i *)
  fl_workDir : string;      (* -w *)
  fl_privileged : bool;     (* -privileged *)
  fl_mtu : Z;               (* -mtu *)
  fl_driver : string;       (* -driver *)
  fl_pipe : Z;              (* -pipe *)
  fl_console : string;      (* -console *)
  fl_root : string          (* -root *)
}.

(** The defaults the flags are declared with. *)
Definition flag_defaults : Flags := {|
  fl_user := ""; fl_gateway := ""; fl_ip := ""; fl_workDir := "";
  fl_privileged := false; fl_mtu := 1500; fl_driver := ""; fl_pipe := 0;
  fl_console := ""; fl_root := "."
|}.

(** How [flag.Parse()] ends: with the values of the flags and the
    arguments left over, or, the command line being refused, with the exit
    of the process. *)
Inductive parse_result : Type :=
| Parsed (values : Flags) (rest : list string)
| ParseExit (code : Z).

(** How a function of [SysInit]'s file, or the init function of a
    driver, ends. *)
Inductive ending (A : Type) : Type :=
| Done (a : A)              (* it returned *)
| Exit (code : Z)           (* [os.Exit] *)
| Panic (msg : string).     (* [panic(err)] *)
Arguments Done {A} a.
Arguments Exit {A} code.
Arguments Panic {A} msg.

(** An init function handed out by [execdriver.GetInitFunc]. *)
Record InitFunc : Type := { init_of : string }.

(** A call of [SysInit], with what it answered. *)
Inductive SysCall : Type :=
| SysPrintln (line : string)                       (* fmt.Println *)
| SysParse (defaults : Flags) (arguments : list string) (r : parse_result)
| SysOpenFile (path : string) (flags perm : Z) (r : result Z)
| SysFatal (line : string)                         (* log.Fatal, log.Fatalln *)
| SysLogExecuting (logFile : Z) (args : InitArgs)  (* logF.Println *)
| SysLogError (logFile : Z) (err : string)         (* logF.Println *)
| SysGetInitFunc (driver : string) (r : result InitFunc)
| SysInitFunc (f : InitFunc) (args : InitArgs) (r : ending error)
| SysExit (code : Z).

(** The process that runs [SysInit]. *)
Record Cmd : Type := {
  os_Args : list string;
  sys_calls : list SysCall
}.

Definition sys_called (e : SysCall) (s : Cmd) : Cmd :=
  {| os_Args := os_Args s; sys_calls := sys_calls s ++ [e] |}.

(** What the callees of [SysInit] answer. *)
Record Drivers : Type := {
  sys_Parse : Flags -> list string -> Cmd -> parse_result;
  sys_OpenFile : string -> Z -> Z -> Cmd -> result Z;
  sys_GetInitFunc : string -> Cmd -> result InitFunc;
  sys_InitFunc : InitFunc -> InitArgs -> Cmd -> ending error
}.

Definition sys_ext {R A} (e : A -> SysCall) (answer : Cmd -> A) : St Cmd R A :=
  fun s => let a := answer s in (Next a, sys_called (e a) s).

Definition sys_do {R} (e : SysCall) : St Cmd R unit :=
  fun s => (Next tt, sys_called e s).

(** [os.Exit(code)] *)
Definition sys_Exit {R A} (code : Z) : St Cmd (ending R) A :=
  fun s => (Return (Exit code), sys_called (SysExit code) s).

(** [log.Fatal]: the line on standard error, then [os.Exit(1)]. *)
Definition log_Fatal {R A} (line : string) : St Cmd (ending R) A :=
  fun s => (Return (Exit 1),
            sys_called (SysExit 1) (sys_called (SysFatal line) s)).

Section sysinit.

Local Open Scope st_scope.

Variable D : Drivers.

Definition executeProgram (args : InitArgs) : Cmd -> ending error * Cmd :=
  st_body (
    r <- sys_ext (SysGetInitFunc (ia_Driver args))
                 (sys_GetInitFunc D (ia_Driver args)) ;;
    match r with
    | Err err => st_ret (Panic err)
    | Ok dockerInitFct =>
        e <- sys_ext (SysInitFunc dockerInitFct args)
                     (sys_InitFunc D dockerInitFct args) ;;
        st_ret e
    end).

Definition SysInit : Cmd -> ending unit * Cmd :=
  st_body (
    osArgs <- (fun s => (Next (os_Args s), s)) ;;
    st_when (length osArgs <=? 1)%nat
      (sys_do (SysPrintln "You should not invoke dockerinit manually") ;;
       sys_Exit 1) ;;
    r <- sys_ext (SysParse flag_defaults (drop 1 osArgs))
                 (sys_Parse D flag_defaults (drop 1 osArgs)) ;;
    match r with
    | ParseExit code => st_ret (Exit code)
    | Parsed fl rest =>
    let args := {|
      ia_User := fl_user fl;
      ia_Gateway := fl_gateway fl;
      ia_Ip := fl_ip fl;
      ia_WorkDir := fl_workDir fl;
      ia_Privileged := fl_privileged fl;
      ia_Args := rest;
      ia_Mtu := fl_mtu fl;
      ia_Driver := fl_driver fl;
      ia_Console := fl_console fl;
      ia_Pipe := fl_pipe fl;
      ia_Root := fl_root fl
    |} in
    r <- sys_ext (SysOpenFile "/tmp/sysinit.log"
                    (Z.lor (Z.lor O_CREATE O_WRONLY) O_APPEND) perm_0666)
                 (sys_OpenFile D "/tmp/sysinit.log"
                    (Z.lor (Z.lor O_CREATE O_WRONLY) O_APPEND) perm_0666) ;;
    match r with
    | Err err => log_Fatal ("Failed to open log file " +:+ err)
    | Ok logFile =>
    sys_do (SysLogExecuting logFile args) ;;
    e <- st_call (executeProgram args) ;;
    match e with
    | Panic msg => st_ret (Panic msg)
    | Exit code => st_ret (Exit code)
    | Done None => st_pure (Done tt)
    | Done (Some err) =>
        sys_do (SysLogError logFile err) ;;
        log_Fatal err
    end
    end end).

End sysinit.

(** ** Platforms to run them on *)

(** The lookup knows ["daemon"], the calls succeed unless a parameter says
    otherwise. *)
Definition fin_sample (setgid : error) : Finalizers := {|
  fin_GetUserGroupSupplementary := fun u defaultUid defaultGid _ =>
    if String.eqb u "daemon" then Ok (1, 1, [1; 4])
    else if String.eqb u "" then Ok (defaultUid, defaultGid, [])
    else Err ("Unable to find user " +:+ u);
  fin_Setgroups := fun _ _ => None;
  fin_Setgid := fun _ _ => setgid;
  fin_Setuid := fun _ _ => None;
  fin_CloseFdsFrom := fun _ _ => None;
  fin_Chdir := fun _ _ => None
|}.

Definition root_proc : Proc := {| real_uid := 0; real_gid := 0; calls := [] |}.

Definition container_daemon : Container := {|
  Hostname := "box"; User := "daemon"; WorkingDir := "/srv";
  Env := ["PATH=/bin"]; Networks := []; Context_ := ∅
|}.

(** The command line is taken as parsed with the driver named by its
    first argument; the driver ["native"] is known, and its init function
    answers [run]. *)
Definition sys_sample (openlog : result Z) (run : ending error) : Drivers := {|
  sys_Parse := fun defaults arguments _ =>
    match arguments with
    | [] => ParseExit 2
    | d :: rest =>
        Parsed {| fl_user := fl_user defaults; fl_gateway := fl_gateway defaults;
                  fl_ip := fl_ip defaults; fl_workDir := fl_workDir defaults;
                  fl_privileged := fl_privileged defaults;
                  fl_mtu := fl_mtu defaults; fl_driver := d;
                  fl_pipe := fl_pipe defaults; fl_console := fl_console defaults;
                  fl_root := fl_root defaults |} rest
    end;
  sys_OpenFile := fun _ _ _ _ => openlog;
  sys_GetInitFunc := fun d _ =>
    if String.eqb d "native" then Ok {| init_of := d |}
    else Err ("unknown driver " +:+ d);
  sys_InitFunc := fun _ _ _ => run
|}.

Definition cmd_of (arguments : list string) : Cmd :=
  {| os_Args := arguments; sys_calls := [] |}.

(** * Properties *)

(** ** Strings and numbers *)

Lemma append_inj_l (p a b : string) : p +:+ a = p +:+ b -> a = b.
Proof.
  induction p as [|c p IH]; simpl; [done|].
  intros H. injection H as H. by apply IH.
Qed.

Lemma cut_None (c : ascii) (s : string) :
  cut c s = None <-> contains_byte c s = false.
Proof.
  induction s as [|c' s IH]; simpl; [done|].
  destruct (Ascii.eqb c' c); simpl; [split; discriminate|].
  destruct (cut c s) as [[a b]|]; rewrite <- IH; split; try done; discriminate.
Qed.

Lemma cut_Some (c : ascii) (s a b : string) :
  cut c s = Some (a, b) ->
  s = a +:+ String c b /\ contains_byte c a = false.
Proof.
  revert a; induction s as [|c' s IH]; simpl; intros a; [discriminate|].
  destruct (Ascii.eqb c' c) eqn:E.
  - intros [= <- <-]. apply Ascii.eqb_eq in E as ->. done.
  - destruct (cut c s) as [[a' b']|]; [|discriminate].
    intros [= <- <-]. destruct (IH a' eq_refl) as [-> Ha].
    simpl. by rewrite E.
Qed.

Lemma SplitN_2 (s : string) (c : ascii) :
  strings_SplitN s c 2 =
  match cut c s with Some (a, b) => [a; b] | None => [s] end.
Proof. simpl. by destruct (cut c s) as [[a b]|]. Qed.

(** The validity check of [LoadContainerEnvironment] rejects an entry
    exactly when it holds no ['=']. *)
Lemma SplitN_short (pair : string) :
  (length (strings_SplitN pair "=" 2) <? 2)%nat = true
  <-> contains_byte "=" pair = false.
Proof.
  rewrite SplitN_2, <- cut_None.
  destruct (cut "=" pair) as [[a b]|]; simpl; split; done.
Qed.

Lemma prefix_append (p s : string) : String.prefix p (p +:+ s) = true.
Proof.
  induction p as [|c p IH]; simpl; [by destruct s|].
  destruct (ascii_dec c c); [done|congruence].
Qed.

Lemma Contains_prefix (p s : string) : strings_Contains (p +:+ s) p = true.
Proof.
  pose proof (prefix_append p s) as H.
  destruct (p +:+ s); cbn [strings_Contains]; by rewrite H.
Qed.

Lemma uid_map_neq_gid_map (pid : Z) : uid_map pid <> gid_map pid.
Proof.
  unfold uid_map, gid_map. intros H.
  apply append_inj_l, append_inj_l in H. discriminate.
Qed.

Lemma uintptr_small (n : Z) : 0 <= n < 2 ^ 64 -> uintptr n = n.
Proof. intros H. unfold uintptr. by apply Z.mod_small. Qed.

(** The status word of a child that exited with [code] is [code << 8]. *)
Lemma ExitStatus_of_exit (code : Z) :
  0 <= code <= 255 -> WaitStatus_ExitStatus (Z.shiftl code 8) = code.
Proof.
  intros H. unfold WaitStatus_ExitStatus, WaitStatus_Exited.
  change 0x7F with (Z.ones 7). change 0xFF with (Z.ones 8).
  rewrite !Z.land_ones, Z.shiftr_shiftl_l, Z.shiftl_mul_pow2 by lia.
  change (8 - 8) with 0. rewrite Z.shiftl_0_r.
  replace (code * 2 ^ 8) with ((code * 2) * 2 ^ 7) by lia.
  rewrite Z.mod_mul by lia. simpl. apply Z.mod_small. lia.
Qed.

Lemma range_cons {R A} (x : A) (l : list A) (f : A -> Go R unit) (w : World) :
  range (x :: l) f w
  = match f x w with
    | (Next _, w') => range l f w'
    | (Return r, w') => (Return r, w')
    end.
Proof. reflexivity. Qed.

(** ** The mapping files *)

Section writeUserMappings_facts.

Variable X : Externals.

(** C9. When the write to [/proc/<pid>/uid_map] fails, [writeUserMappings]
    returns that error at once: the only call it made is that write, and
    [/proc/<pid>/gid_map] is neither written nor changed. *)
Theorem writeUserMappings_uid_error (pid : Z) (mappings msg : string) (w : World) :
  write_error (on_WriteFile X (uid_map pid) mappings perm_0644 w) = Some msg ->
  exists w',
    writeUserMappings X pid mappings w = (Some msg, w')
    /\ trace w' = trace w ++
         [EvWriteFile (uid_map pid) mappings perm_0644
            (on_WriteFile X (uid_map pid) mappings perm_0644 w)]
    /\ (forall d m r,
          EvWriteFile (gid_map pid) d m r ∉ drop (length (trace w)) (trace w'))
    /\ files w' !! gid_map pid = files w !! gid_map pid.
Proof.
  intros Hfail.
  unfold writeUserMappings, body, range, bind, ioutil_WriteFile, return_if_err.
  fold (uid_map pid) (gid_map pid).
  destruct (on_WriteFile X (uid_map pid) mappings perm_0644 w) as [|e|e part] eqn:Hw;
    simpl in Hfail; [discriminate| |]; injection Hfail as ->;
    eexists; (split; [reflexivity|]); simpl;
    (split; [reflexivity|]);
    rewrite drop_app_length;
    (split; [intros d m r Hin; apply list_elem_of_singleton in Hin;
             pose proof (uid_map_neq_gid_map pid); congruence|]).
  - done.
  - unfold store. rewrite lookup_insert_ne; [done|apply uid_map_neq_gid_map].
Qed.

End writeUserMappings_facts.

Lemma writeUserMappings_uid_error_witness :
  write_error (on_WriteFile X_denied (uid_map 4242) "0 1017 1" perm_0644 world0)
    = Some "permission denied"
  /\ exists w',
       writeUserMappings X_denied 4242 "0 1017 1" world0
         = (Some "permission denied", w')
       /\ trace w' = trace world0 ++
            [EvWriteFile (uid_map 4242) "0 1017 1" perm_0644
               (on_WriteFile X_denied (uid_map 4242) "0 1017 1" perm_0644 world0)]
       /\ (forall d m r,
             EvWriteFile (gid_map 4242) d m r
               ∉ drop (length (trace world0)) (trace w'))
       /\ files w' !! gid_map 4242 = files world0 !! gid_map 4242.
Proof.
  split; [reflexivity|].
  apply (writeUserMappings_uid_error X_denied 4242 "0 1017 1" "permission denied" world0).
  reflexivity.
Defined.

Lemma writeUserMappings_run (X : Externals) (pid : Z) (mappings : string) (w : World) :
  exists evs, trace (writeUserMappings X pid mappings w).2 = trace w ++ evs
              /\ mapping_writes pid mappings (writeUserMappings X pid mappings w).1 evs.
Proof.
  unfold writeUserMappings, body, range, bind, ioutil_WriteFile, return_if_err.
  fold (uid_map pid) (gid_map pid).
  destruct (on_WriteFile X (uid_map pid) mappings perm_0644 w) as [|e|e part] eqn:H1;
    cbn.
  - match goal with |- context [on_WriteFile X (gid_map pid) mappings perm_0644 ?w1] =>
      destruct (on_WriteFile X (gid_map pid) mappings perm_0644 w1)
        as [|e|e part] eqn:H2 end; cbn;
      eexists [_; _]; rewrite <- app_assoc; (split; [done|]);
      [apply both_written|by apply gid_map_failed..].
  - eexists [_]. split; [done|]. by apply uid_map_failed.
  - eexists [_]. split; [done|]. by apply uid_map_failed.
Qed.

(** ** The parent-death signal *)

Section RestoreParentDeathSignal_facts.

Variable X : Externals.

(** C7. [RestoreParentDeathSignal old]:
    - with [old = 0] it returns nil and does nothing, whatever the current
      value is;
    - with [old <> 0] it reads the current value, and when that equals
      [old] it returns nil without installing anything;
    - when the current value differs it installs [old] (as [uintptr(old)],
      which is [old] for a signal number), and then, exactly when
      [Getppid()] is 1, sends signal [old] to its own pid and returns what
      that [Kill] answered. *)
Theorem RestoreParentDeathSignal_spec :
  (forall w, RestoreParentDeathSignal X 0 w = (None, w))
  /\ (forall old w,
        old <> 0 ->
        on_GetParentDeathSignal X w = None ->
        pdeathsig w = old ->
        RestoreParentDeathSignal X old w
          = (None, log (EvGetParentDeathSignal (Ok old)) w))
  /\ (forall old w,
        old <> 0 ->
        on_GetParentDeathSignal X w = None ->
        pdeathsig w <> old ->
        let w1 := log (EvGetParentDeathSignal (Ok (pdeathsig w))) w in
        on_ParentDeathSignal X (uintptr old) w1 = None ->
        let w2 := set_pdeathsig (uintptr old)
                    (log (EvParentDeathSignal (uintptr old) None) w1) in
        pdeathsig w2 = uintptr old
        /\ (0 <= old < 2 ^ 64 -> uintptr old = old)
        /\ (parent_pid w = 1 ->
            RestoreParentDeathSignal X old w
              = (on_Kill X (self_pid w) old w2,
                 log (EvKill (self_pid w) old (on_Kill X (self_pid w) old w2)) w2))
        /\ (parent_pid w <> 1 ->
            RestoreParentDeathSignal X old w = (None, w2))).
Proof.
  split; [|split].
  - intros w. reflexivity.
  - intros old w Hold Hget Hcur.
    unfold RestoreParentDeathSignal, body, bind, system_GetParentDeathSignal, ext.
    apply Z.eqb_neq in Hold. rewrite Hold. cbn. rewrite Hget, Hcur.
    by rewrite Z.eqb_refl.
  - intros old w Hold Hget Hcur w1 Hset w2.
    split; [reflexivity|]. split; [apply uintptr_small|].
    assert (Hne : (old =? pdeathsig w) = false) by (apply Z.eqb_neq; congruence).
    apply Z.eqb_neq in Hold.
    split; intros Hpp;
      unfold RestoreParentDeathSignal, body, bind, system_GetParentDeathSignal,
        system_ParentDeathSignal, syscall_Getppid, syscall_Getpid, syscall_Kill,
        return_if_err, ext;
      rewrite Hold; cbn; rewrite Hget, Hne; cbn;
      fold w1; rewrite Hset; cbn.
    + rewrite Hpp. reflexivity.
    + apply Z.eqb_neq in Hpp. rewrite Hpp. reflexivity.
Qed.

End RestoreParentDeathSignal_facts.

Lemma RestoreParentDeathSignal_spec_witness :
  RestoreParentDeathSignal X_calm 0 orphan = (None, orphan)
  /\ pdeathsig (RestoreParentDeathSignal X_calm 15 orphan).2 = 15
  /\ trace (RestoreParentDeathSignal X_calm 15 orphan).2
     = [EvGetParentDeathSignal (Ok 0); EvParentDeathSignal 15 None;
        EvKill 77 15 None].
Proof.
  destruct (RestoreParentDeathSignal_spec X_calm) as (H0 & _ & H).
  split; [apply H0|].
  destruct (H 15 orphan) as (_ & _ & Hk & _);
    [discriminate | reflexivity | discriminate | reflexivity |].
  rewrite Hk; [|reflexivity]. split; reflexivity.
Defined.

Lemma RestoreParentDeathSignal_trace (X : Externals) (old : Z) (w : World) :
  exists evs, trace (RestoreParentDeathSignal X old w).2 = trace w ++ evs
              /\ Forall pdeath_event evs.
Proof.
  unfold RestoreParentDeathSignal, body, bind, system_GetParentDeathSignal,
    system_ParentDeathSignal, syscall_Getppid, syscall_Getpid, syscall_Kill,
    return_if_err, ext.
  destruct (old =? 0); cbn; [exists []; by rewrite app_nil_r|].
  destruct (on_GetParentDeathSignal X w); cbn;
    [eexists [_]; split; [done|by repeat constructor]|].
  destruct (old =? pdeathsig w); cbn;
    [eexists [_]; split; [done|by repeat constructor]|].
  destruct (on_ParentDeathSignal X _ _); cbn;
    [eexists [_; _]; rewrite <- app_assoc; split; [done|by repeat constructor]|].
  destruct (parent_pid w =? 1); cbn.
  - eexists [_; _; _]. rewrite <- !app_assoc. split; [done|by repeat constructor].
  - eexists [_; _]. rewrite <- !app_assoc. split; [done|by repeat constructor].
Qed.

(** ** Environment reconstruction *)

Lemma applied_environ (pre : list string) (w : World) :
  environ (applied pre w)
  = foldl (fun m pair => <[(declared pair).1 := (declared pair).2]> m) ∅ pre.
Proof.
  unfold applied.
  change (∅ : gmap string string)
    with (environ (set_environ ∅ (log EvClearenv w))) at 2.
  generalize (set_environ ∅ (log EvClearenv w)).
  induction pre as [|p pre IH]; intros w1; simpl; [done|].
  by rewrite IH.
Qed.

Lemma applied_trace (pre : list string) (w : World) :
  trace (applied pre w)
  = trace w ++ EvClearenv
      :: ((fun pair => EvSetenv (declared pair).1 (declared pair).2 None) <$> pre).
Proof.
  unfold applied.
  transitivity (trace (set_environ ∅ (log EvClearenv w)) ++
    ((fun pair => EvSetenv (declared pair).1 (declared pair).2 None) <$> pre)).
  - generalize (set_environ ∅ (log EvClearenv w)).
    induction pre as [|p pre IH]; intros w1; simpl; [by rewrite app_nil_r|].
    rewrite IH. simpl. by rewrite <- app_assoc.
  - simpl. by rewrite <- app_assoc.
Qed.

Section LoadContainerEnvironment_facts.

Variable X : Externals.

Lemma LoadContainerEnvironment_unfold (c : Container) (w : World) :
  LoadContainerEnvironment X c w
  = body (os_Clearenv ;; range (Env c) (env_step X) ;; pure None) w.
Proof. reflexivity. Qed.

Lemma env_step_invalid (pair : string) (w : World) :
  contains_byte "=" pair = false ->
  env_step X pair w = (Return (Some ("invalid environment '" +:+ pair +:+ "'")), w).
Proof.
  intros H. unfold env_step. apply SplitN_short in H. by rewrite H.
Qed.

Lemma env_step_valid (pair : string) (w : World) :
  contains_byte "=" pair = true ->
  env_step X pair w
  = let err := on_Setenv X (declared pair).1 (declared pair).2 w in
    match err with
    | None => (Next tt, applied1 w pair)
    | Some _ =>
        (Return err,
         log (EvSetenv (declared pair).1 (declared pair).2 err) w)
    end.
Proof.
  intros H. unfold env_step, declared, applied1, declared.
  rewrite SplitN_2.
  destruct (cut "=" pair) as [[k v]|] eqn:Hc.
  - cbn. unfold bind, os_Setenv, return_if_err. cbn.
    by destruct (on_Setenv X k v w).
  - apply cut_None in Hc. congruence.
Qed.

(** Entries that hold an ['='] and that [os.Setenv] accepts are applied
    one after the other, and the loop goes on. *)
Lemma env_loop_applied (pre rest : list string) (w : World) :
  Forall (fun pair => contains_byte "=" pair = true) pre ->
  (forall pair w', pair ∈ pre ->
     on_Setenv X (declared pair).1 (declared pair).2 w' = None) ->
  range (pre ++ rest) (env_step X) w = range rest (env_step X) (foldl applied1 w pre).
Proof.
  revert w. induction pre as [|p pre IH]; intros w Hgood Hset; [done|].
  apply Forall_cons in Hgood as [Hp Hgood].
  simpl. unfold bind at 1. rewrite env_step_valid by done. cbn zeta.
  rewrite Hset by apply list_elem_of_here.
  apply IH; [done|]. intros pair w' Hin. apply Hset. by apply list_elem_of_further.
Qed.

(** A sequence with an entry that holds no ['='] never gets through. *)
Lemma env_loop_stops (l : list string) (w : World) :
  Exists (fun pair => contains_byte "=" pair = false) l ->
  exists e w', range l (env_step X) w = (Return (Some e), w').
Proof.
  revert w. induction l as [|p l IH]; intros w Hex.
  - by apply Exists_nil in Hex.
  - simpl. unfold bind at 1.
    destruct (contains_byte "=" p) eqn:Hp.
    + rewrite env_step_valid by done. cbn zeta.
      destruct (on_Setenv X _ _ w) as [e|]; [by eauto|].
      apply IH. apply Exists_cons in Hex as [Hex|Hex]; [congruence|done].
    + rewrite env_step_invalid by done. eauto.
Qed.

Lemma env_loop_trace (l : list string) (w : World) :
  exists evs, trace (range l (env_step X) w).2 = trace w ++ evs
              /\ Forall env_event evs.
Proof.
  revert w. induction l as [|p l IH]; intros w; simpl.
  - exists []. by rewrite app_nil_r.
  - unfold bind at 1. destruct (contains_byte "=" p) eqn:Hp.
    + rewrite env_step_valid by done. cbn zeta.
      destruct (on_Setenv X _ _ w) as [e|].
      * eexists [_]. split; [done|]. by repeat constructor.
      * destruct (IH (applied1 w p)) as (evs & -> & Hevs).
        eexists (_ :: evs). simpl. rewrite <- app_assoc. split; [done|].
        by constructor.
    + rewrite env_step_invalid by done. exists []. by rewrite app_nil_r.
Qed.

Lemma LoadContainerEnvironment_trace (c : Container) (w : World) :
  exists evs, trace (LoadContainerEnvironment X c w).2 = trace w ++ evs
              /\ Forall env_event evs.
Proof.
  rewrite LoadContainerEnvironment_unfold. unfold body, bind at 1, os_Clearenv.
  unfold bind.
  destruct (env_loop_trace (Env c) (set_environ ∅ (log EvClearenv w)))
    as (evs & Ht & Hevs).
  destruct (range (Env c) (env_step X) _) as [[[]|r] w']; simpl in *;
    exists (EvClearenv :: evs); rewrite Ht, <- app_assoc;
    (split; [done|by constructor]).
Qed.

(** C5, as the code has it.  A declared environment with an entry that holds
    no ['='] always makes [LoadContainerEnvironment] fail.  When the entries
    before the first such entry are accepted by [os.Setenv], the error is the
    invalid-environment one, and the process is left with the inherited
    environment cleared and exactly those earlier entries set. *)
Theorem LoadContainerEnvironment_invalid_entry (c : Container) (w : World) :
  Exists (fun pair => contains_byte "=" pair = false) (Env c) ->
  (exists e, (LoadContainerEnvironment X c w).1 = Some e)
  /\ (forall pre bad post,
        Env c = pre ++ bad :: post ->
        contains_byte "=" bad = false ->
        Forall (fun pair => contains_byte "=" pair = true) pre ->
        (forall pair w', pair ∈ pre ->
           on_Setenv X (declared pair).1 (declared pair).2 w' = None) ->
        exists w',
          LoadContainerEnvironment X c w
            = (Some ("invalid environment '" +:+ bad +:+ "'"), w')
          /\ environ w'
             = foldl (fun m pair => <[(declared pair).1 := (declared pair).2]> m)
                     ∅ pre
          /\ trace w'
             = trace w ++ EvClearenv
                 :: ((fun pair => EvSetenv (declared pair).1 (declared pair).2 None)
                       <$> pre)).
Proof.
  intros Hex. split.
  - rewrite LoadContainerEnvironment_unfold. unfold body, bind at 1, os_Clearenv.
    unfold bind.
    destruct (env_loop_stops (Env c) (set_environ ∅ (log EvClearenv w)) Hex)
      as (e & w' & ->).
    by exists e.
  - intros pre bad post HEnv Hbad Hgood Hset.
    exists (applied pre w). split; [|split].
    + rewrite LoadContainerEnvironment_unfold. unfold body, bind at 1, os_Clearenv.
      unfold bind at 1.
      rewrite HEnv, (env_loop_applied pre (bad :: post)) by done.
      simpl. unfold bind at 1. by rewrite env_step_invalid.
    + apply applied_environ.
    + apply applied_trace.
Qed.

(** C10.  The validity check rejects an entry exactly when it holds no
    ['=']; an entry [=value] splits into the empty key and [value], passes
    the check, and reaches [os.Setenv "" value]: when that call fails, its
    error is what [LoadContainerEnvironment] returns. *)
Theorem LoadContainerEnvironment_empty_key
    (c : Container) (w : World) (pre post : list string) (v : string) :
  Env c = pre ++ ("=" +:+ v) :: post ->
  Forall (fun pair => contains_byte "=" pair = true) pre ->
  (forall pair w', pair ∈ pre ->
     on_Setenv X (declared pair).1 (declared pair).2 w' = None) ->
  (forall pair,
     (length (strings_SplitN pair "=" 2) <? 2)%nat = true
     <-> contains_byte "=" pair = false)
  /\ strings_SplitN ("=" +:+ v) "=" 2 = [""; v]
  /\ let w1 := applied pre w in
     let err := on_Setenv X "" v w1 in
     EvSetenv "" v err
       ∈ drop (length (trace w)) (trace (LoadContainerEnvironment X c w).2)
     /\ (forall e, err = Some e ->
           LoadContainerEnvironment X c w
             = (Some e, log (EvSetenv "" v (Some e)) w1)).
Proof.
  intros HEnv Hgood Hset. split; [apply SplitN_short|]. split; [done|].
  intros w1 err.
  assert (Hrun : LoadContainerEnvironment X c w
    = body (range (("=" +:+ v) :: post) (env_step X) ;; pure None) w1).
  { rewrite LoadContainerEnvironment_unfold. unfold body, bind at 1, os_Clearenv.
    unfold bind at 1.
    rewrite HEnv, (env_loop_applied pre (("=" +:+ v) :: post)) by done.
    reflexivity. }
  assert (Hstep : env_step X ("=" +:+ v) w1
    = match err with
      | None => (Next tt, applied1 w1 ("=" +:+ v))
      | Some _ => (Return err, log (EvSetenv "" v err) w1)
      end) by (by rewrite env_step_valid).
  split.
  - rewrite Hrun. unfold body, bind at 1. simpl range. unfold bind at 1.
    rewrite Hstep.
    destruct err as [e|] eqn:He.
    + simpl. unfold w1. rewrite applied_trace, <- app_assoc, drop_app_length.
      set_solver.
    + destruct (env_loop_trace post (applied1 w1 ("=" +:+ v))) as (evs & Ht & _).
      destruct (range post (env_step X) _) as [[[]|r] w']; simpl in Ht |- *;
        rewrite Ht; unfold w1; rewrite applied_trace;
        rewrite <- !app_assoc, drop_app_length; set_solver.
  - intros e He. rewrite Hrun. unfold body, bind at 1. simpl range.
    unfold bind at 1. rewrite Hstep, He. reflexivity.
Qed.

End LoadContainerEnvironment_facts.

(** C5 as stated fails: with ["PATH=/bin"; "bad"; "HOME=/root"] the call
    fails on ["bad"], and the process is left with [PATH] already set, an
    environment that is neither the inherited one nor empty nor the
    declared one. *)
Lemma LoadContainerEnvironment_partial_counterexample :
  Exists (fun pair => contains_byte "=" pair = false) (Env container_bad)
  /\ (LoadContainerEnvironment X_calm container_bad world0).1
     = Some "invalid environment 'bad'"
  /\ environ (LoadContainerEnvironment X_calm container_bad world0).2 !! "PATH"
     = Some "/bin"
  /\ environ (LoadContainerEnvironment X_calm container_bad world0).2 !! "HOME"
     = None
  /\ environ world0 !! "PATH" = None.
Proof.
  split; [|by vm_compute].
  apply Exists_cons_tl, Exists_cons_hd. reflexivity.
Qed.

Lemma LoadContainerEnvironment_invalid_entry_witness :
  (exists e, (LoadContainerEnvironment X_calm container_bad world0).1 = Some e)
  /\ exists w',
       LoadContainerEnvironment X_calm container_bad world0
         = (Some "invalid environment 'bad'", w')
       /\ environ w' = {[ "PATH" := "/bin" ]}
       /\ trace w' = [EvClearenv; EvSetenv "PATH" "/bin" None].
Proof.
  destruct (LoadContainerEnvironment_invalid_entry X_calm container_bad world0)
    as [Hfail Hat].
  { apply Exists_cons_tl, Exists_cons_hd. reflexivity. }
  split; [exact Hfail|].
  destruct (Hat ["PATH=/bin"] "bad" ["HOME=/root"]) as (w' & Hrun & Henv & Htr).
  - reflexivity.
  - reflexivity.
  - repeat constructor.
  - intros pair w' Hin. apply list_elem_of_singleton in Hin as ->. reflexivity.
  - exists w'. split; [exact Hrun|]. split; [exact Henv|exact Htr].
Defined.

Lemma LoadContainerEnvironment_empty_key_witness :
  strings_SplitN "=value" "=" 2 = [""; "value"]
  /\ LoadContainerEnvironment X_calm container_nokey world0
     = (Some "setenv: invalid argument",
        log (EvSetenv "" "value" (Some "setenv: invalid argument"))
          (applied ["PATH=/bin"] world0)).
Proof.
  destruct (LoadContainerEnvironment_empty_key X_calm container_nokey world0
              ["PATH=/bin"] ["HOME=/root"] "value") as (_ & Hsplit & _ & Herr).
  - reflexivity.
  - repeat constructor.
  - intros pair w' Hin. apply list_elem_of_singleton in Hin as ->. reflexivity.
  - split; [exact Hsplit|]. apply Herr. reflexivity.
Defined.

(** ** Network attachment dispatch *)

Section setupNetwork_loop.

Variable X : Externals.
Variable context : Context.

Lemma setupNetwork_unfold (c : Container) (w : World) :
  setupNetwork X c context w
  = body (range (Networks c) (net_step X context) ;; pure None) w.
Proof. reflexivity. Qed.

Lemma net_step_eq (cfg : Network) (w : World) :
  net_step X context cfg w
  = match on_GetStrategy X (Type_ cfg) with
    | Err e => (Return (Some e), w)
    | Ok s =>
        let r := on_Initialize X s cfg context w in
        match r with
        | None => (Next tt, log (EvInitialize s cfg context None) w)
        | Some _ => (Return r, log (EvInitialize s cfg context r) w)
        end
    end.
Proof.
  unfold net_step, network_GetStrategy.
  destruct (on_GetStrategy X (Type_ cfg)); [|done].
  unfold bind, strategy_Initialize, ext, return_if_err. cbn zeta.
  by destruct (on_Initialize X _ cfg context w).
Qed.

Lemma net_loop_run (l : list Network) (w : World) :
  exists l1 l2 evs,
    l = l1 ++ l2
    /\ trace (range l (net_step X context) w).2 = trace w ++ evs
    /\ Forall2 (invoked X context) l1 evs
    /\ match (range l (net_step X context) w).1 with
       | Next _ => l2 = [] /\ Forall2 (invoked_ok X context) l1 evs
       | Return r => exists e, r = Some e
       end.
Proof.
  revert w. induction l as [|cfg l IH]; intros w.
  - exists [], [], []. simpl. rewrite app_nil_r. by repeat split.
  - rewrite !range_cons, net_step_eq.
    destruct (on_GetStrategy X (Type_ cfg)) as [s|e] eqn:Hs.
    + cbn zeta.
      destruct (on_Initialize X s cfg context w) as [e|] eqn:Hi.
      * exists [cfg], l, [EvInitialize s cfg context (Some e)].
        split; [done|]. split; [done|]. split; [|by cbn; eauto].
        constructor; [|constructor]. by exists s, (Some e).
      * destruct (IH (log (EvInitialize s cfg context None) w))
          as (l1 & l2 & evs & -> & Ht & Hinv & Hres).
        exists (cfg :: l1), l2, (EvInitialize s cfg context None :: evs).
        split; [done|]. split; [by rewrite Ht; simpl; rewrite <- app_assoc|].
        split; [constructor; [by exists s, None|done]|].
        destruct (range (l1 ++ l2) (net_step X context) _) as [[[]|r] w'];
          simpl in *; [|done].
        destruct Hres as [-> Hok]. split; [done|].
        constructor; [by exists s|done].
    + exists [], (cfg :: l), []. cbn. rewrite app_nil_r.
      split; [done|]. split; [done|]. split; [constructor|by eauto].
Qed.

End setupNetwork_loop.

Section setupNetwork_facts.

Variable X : Externals.

(** What [setupNetwork] does: it walks the endpoints in order, calls the
    registered strategy of each one once with the endpoint and the payload,
    and stops with an error at the first lookup or [Initialize] that fails.
    It returns nil only after every endpoint was served successfully. *)
Lemma setupNetwork_run (c : Container) (context : Context) (w : World) :
  exists l1 l2 evs,
    Networks c = l1 ++ l2
    /\ trace (setupNetwork X c context w).2 = trace w ++ evs
    /\ Forall2 (invoked X context) l1 evs
    /\ ((setupNetwork X c context w).1 = None ->
        l2 = [] /\ Forall2 (invoked_ok X context) l1 evs).
Proof.
  rewrite setupNetwork_unfold. unfold body, bind.
  destruct (net_loop_run X context (Networks c) w)
    as (l1 & l2 & evs & Hl & Ht & Hinv & Hres).
  exists l1, l2, evs.
  destruct (range (Networks c) _ w) as [[[]|r] w']; simpl in *.
  - split; [done|]. split; [done|]. split; [done|]. by intros _.
  - split; [done|]. split; [done|]. split; [done|].
    destruct Hres as [e ->]. discriminate.
Qed.

Lemma setupNetwork_trace (c : Container) (context : Context) (w : World) :
  exists evs, trace (setupNetwork X c context w).2 = trace w ++ evs
              /\ Forall net_event evs.
Proof.
  destruct (setupNetwork_run c context w) as (l1 & l2 & evs & _ & Ht & Hinv & _).
  exists evs. split; [done|].
  clear Ht. induction Hinv as [|cfg e l1 evs (s & r & _ & ->) _ IH]; by constructor.
Qed.

(** An endpoint whose type has no registered strategy makes the dispatch
    fail. *)
Lemma setupNetwork_unregistered (c : Container) (context : Context) (w : World) :
  Exists (unregistered X) (Networks c) ->
  exists e, (setupNetwork X c context w).1 = Some e.
Proof.
  intros Hex.
  destruct (setupNetwork_run c context w) as (l1 & l2 & evs & Hl & _ & _ & Hnil).
  destruct (setupNetwork X c context w).1 as [e|]; [by eauto|].
  destruct Hnil as [-> Hok]; [done|]. rewrite app_nil_r in Hl. rewrite Hl in Hex.
  exfalso. clear Hl. induction Hok as [|cfg e l1 evs (s & Hs & _) _ IH].
  - by apply Exists_nil in Hex.
  - apply Exists_cons in Hex as [[e' He']|Hex]; [congruence|by apply IH].
Qed.

(** Each call the dispatch makes serves an endpoint of the container. *)
Lemma setupNetwork_calls (c : Container) (context : Context) (w0 : World) :
  exists evs,
    trace (setupNetwork X c context w0).2 = trace w0 ++ evs
    /\ Forall (fun e => exists cfg, cfg ∈ Networks c /\ invoked X context cfg e) evs.
Proof.
  destruct (setupNetwork_run c context w0) as (l1 & l2 & evs & Hl & Ht & Hinv & _).
  exists evs. split; [done|]. rewrite Hl. clear Hl Ht.
  induction Hinv as [|cfg e l1 evs He _ IH]; [constructor|].
  constructor.
  - exists cfg. split; [apply list_elem_of_here|done].
  - eapply Forall_impl; [exact IH|]. intros e' (cfg' & Hin & He').
    exists cfg'. split; [by apply list_elem_of_further|done].
Qed.

End setupNetwork_facts.

(** ** Reasoning about the calls a body makes *)

Section emits_rules.

Context {R A B : Type}.
Implicit Types (Qn : A -> list Event -> Prop) (Qr : R -> list Event -> Prop).

Lemma emits_pure (a : A) Qn Qr : Qn a [] -> emits (pure a) Qn Qr.
Proof. intros H w. exists []. simpl. by rewrite app_nil_r. Qed.

Lemma emits_ret (r : R) Qn Qr : Qr r [] -> emits (ret r) Qn Qr.
Proof. intros H w. exists []. simpl. by rewrite app_nil_r. Qed.

Lemma emits_ext (ev : A -> Event) (answer : World -> A) Qn Qr :
  (forall a, Qn a [ev a]) -> emits (ext ev answer) Qn Qr.
Proof. intros H w. exists [ev (answer w)]. split; [done|apply H]. Qed.

Lemma emits_bind (m : Go R A) (k : A -> Go R B)
    (Qn : B -> list Event -> Prop) Qr :
  emits m
    (fun a evs1 =>
       emits (k a) (fun b evs2 => Qn b (evs1 ++ evs2))
                   (fun r evs2 => Qr r (evs1 ++ evs2)))
    Qr ->
  emits (bind m k) Qn Qr.
Proof.
  intros H w. unfold bind. destruct (H w) as (evs1 & Ht1 & H1).
  destruct (m w) as [[a|r] w1]; simpl in *.
  - destruct (H1 w1) as (evs2 & Ht2 & H2).
    exists (evs1 ++ evs2). rewrite Ht2, Ht1, <- app_assoc. done.
  - by exists evs1.
Qed.

Lemma emits_call (f : World -> A * World) (P : A -> list Event -> Prop) Qn Qr :
  (forall w, exists evs, trace (f w).2 = trace w ++ evs /\ P (f w).1 evs) ->
  (forall a evs, P a evs -> Qn a evs) ->
  emits (call f) Qn Qr.
Proof.
  intros Hf HQ w. unfold call. destruct (Hf w) as (evs & Ht & HP).
  destruct (f w) as [a w']. exists evs. split; [done|]. by apply HQ.
Qed.

End emits_rules.

Lemma emits_ext_ {R} (ev : Event) (Qn : unit -> list Event -> Prop)
    (Qr : R -> list Event -> Prop) :
  Qn tt [ev] -> emits (ext_ ev) Qn Qr.
Proof. intros H w. by exists [ev]. Qed.

Lemma emits_return_if_err {R} (err : error) (f : string -> R)
    (Qn : unit -> list Event -> Prop) (Qr : R -> list Event -> Prop) :
  match err with Some e => Qr (f e) [] | None => Qn tt [] end ->
  emits (return_if_err err f) Qn Qr.
Proof. destruct err; [apply emits_ret|apply emits_pure]. Qed.

Lemma emits_when {R} (b : bool) (m : Go R unit)
    (Qn : unit -> list Event -> Prop) (Qr : R -> list Event -> Prop) :
  (if b then emits m Qn Qr else Qn tt []) -> emits (when b m) Qn Qr.
Proof. destruct b; [done|apply emits_pure]. Qed.

Lemma emits_body {R} (m : Go R R) (Q : R -> list Event -> Prop) :
  emits m Q Q ->
  forall w, exists evs, trace (body m w).2 = trace w ++ evs /\ Q (body m w).1 evs.
Proof.
  intros H w. unfold body. destruct (H w) as (evs & Ht & HQ).
  destruct (m w) as [[r|r] w']; by exists evs.
Qed.

Section emits_callees.

Variable X : Externals.
Context {A : Type}.
Implicit Types (Qr : outcome -> list Event -> Prop).

Lemma emits_FindProcess {R} (pid : Z) (Qn : result Z -> list Event -> Prop)
    (Qr : R -> list Event -> Prop) :
  Qn (Ok pid) [EvFindProcess pid (Ok pid)] ->
  (forall e, Qn (Err e) [EvFindProcess pid (Err e)]) ->
  emits (os_FindProcess X pid) Qn Qr.
Proof.
  intros Hok Herr w. unfold os_FindProcess, ext. cbn.
  destruct (on_FindProcess X pid w) as [e|]; eexists [_];
    (split; [reflexivity|]); [apply Herr|apply Hok].
Qed.

Lemma emits_Exit (code : Z) (Qn : A -> list Event -> Prop) Qr :
  Qr (Exited code) [EvExit code] -> emits (os_Exit code) Qn Qr.
Proof. intros H w. by exists [EvExit code]. Qed.

Lemma emits_Exec (argv0 : string) (argv envv : list string)
    (Qn : error -> list Event -> Prop) Qr :
  Qr Replaced [EvExec argv0 argv envv None] ->
  (forall e, Qn (Some e) [EvExec argv0 argv envv (Some e)]) ->
  emits (syscall_Exec X argv0 argv envv) Qn Qr.
Proof.
  intros Hok Herr w. unfold syscall_Exec. cbn.
  destruct (on_Exec X argv0 argv envv w) as [e|]; eexists [_];
    (split; [reflexivity|]); [apply Herr|apply Hok].
Qed.

End emits_callees.

(** One step through a body, by its head. *)
Ltac emits_step :=
  lazymatch goal with
  | |- emits (bind _ _) _ _ => apply emits_bind
  | |- emits (pure _) _ _ => apply emits_pure
  | |- emits (ret _) _ _ => apply emits_ret
  | |- emits (return_if_err ?e _) _ _ =>
      apply emits_return_if_err;
      lazymatch e with
      | Some _ => cbv iota
      | None => cbv iota
      | _ => destruct e
      end
  | |- emits (when ?b _) _ _ =>
      apply emits_when;
      lazymatch b with
      | true => cbv iota
      | false => cbv iota
      | _ => destruct b eqn:?
      end
  | |- emits (os_FindProcess _ _) _ _ => apply emits_FindProcess; [|intros ?]
  | |- emits (os_Exit _) _ _ => apply emits_Exit
  | |- emits (syscall_Exec _ _ _ _) _ _ => apply emits_Exec; [|intros ?]
  | |- emits (call (LoadContainerEnvironment ?X ?c)) _ _ =>
      apply (emits_call _ (fun _ evs => Forall env_event evs));
      [intros ?; apply LoadContainerEnvironment_trace|intros ? ? ?]
  | |- emits (call (setupNetwork ?X ?c ?ctx)) _ _ =>
      apply (emits_call _ (fun _ evs => Forall net_event evs));
      [intros ?; apply setupNetwork_trace|intros ? ? ?]
  | |- emits (call (RestoreParentDeathSignal ?X ?old)) _ _ =>
      apply (emits_call _ (fun _ evs => Forall pdeath_event evs));
      [intros ?; apply RestoreParentDeathSignal_trace|intros ? ? ?]
  | |- emits (call (writeUserMappings ?X ?pid ?m)) _ _ =>
      apply (emits_call _ (mapping_writes pid m));
      [intros ?; apply writeUserMappings_run|intros ? ? ?]
  | |- emits (match ?x with _ => _ end) _ _ => destruct x
  | |- emits _ _ _ => first [apply emits_ext_ | apply emits_ext; intros ?]
  end.

(** Taking a membership in a list of calls apart. *)
Ltac in_inv H :=
  first
    [ apply elem_of_nil in H; contradiction
    | apply elem_of_cons in H as [H|H];
      [ first [discriminate H | injection H as; subst | idtac] | in_inv H ]
    | apply elem_of_app in H as [H|H]; [ in_inv H | in_inv H ]
    | match goal with
      | HF : Forall ?P ?l |- _ =>
          match type of H with _ ∈ l =>
            exfalso; exact (proj1 (Forall_forall P l) HF _ H) end
      end
    | idtac ].

(** Finding a call in a list of calls. *)
Ltac find_in :=
  first
    [ apply list_elem_of_here
    | apply list_elem_of_further; find_in
    | apply elem_of_app; right; find_in ].

(** A call of the ending is a call of the run. *)
Ltac in_post :=
  apply elem_of_app; right;
  repeat first [apply list_elem_of_here | apply list_elem_of_further].

(** ** The shape of a run of [Init] *)

Lemma run_setup_app c args out (pre evs : list Event) :
  Forall setup_event pre -> Init_run c args out evs ->
  Init_run c args out (pre ++ evs).
Proof.
  induction 1 as [|e pre He _ IH]; intros Hrun; simpl; [done|].
  apply run_setup; [done|]. by apply IH.
Qed.

Lemma env_setup (evs : list Event) : Forall env_event evs -> Forall setup_event evs.
Proof. intros H. eapply Forall_impl; [exact H|]. by intros []. Qed.

Lemma net_setup (evs : list Event) : Forall net_event evs -> Forall setup_event evs.
Proof. intros H. eapply Forall_impl; [exact H|]. by intros []. Qed.

Lemma pdeath_setup (evs : list Event) :
  Forall pdeath_event evs -> Forall setup_event evs.
Proof. intros H. eapply Forall_impl; [exact H|]. by intros []. Qed.

(** The leaves: the calls made so far have one of the shapes of a run. *)
(** The leaves: the calls made so far have one of the shapes of a run. *)
Ltac pid_facts :=
  repeat match goal with
  | H : negb (_ =? _) = true |- _ => apply negb_true_iff, Z.eqb_neq in H
  | H : negb (?p =? _) = false |- _ =>
      apply negb_false_iff, Z.eqb_eq in H; subst p
  end.

Ltac shape_leaf :=
  pid_facts; cbn [app];
  repeat first
    [ apply run_nolog
    | apply run_stopped
    | apply run_setup; [exact I|]
    | apply run_setup_app; [by auto using env_setup, net_setup, pdeath_setup|] ];
  try (apply run_escalation; econstructor; by eauto).

(** Every run of [Init] has one of the shapes of [Init_run]. *)
Lemma Init_shape X c u cp sp args w :
  exists evs, trace (Init X c u cp sp args w).2 = trace w ++ evs
    /\ Init_run c args (Init X c u cp sp args w).1 evs.
Proof.
  unfold Init. apply emits_body.
  repeat emits_step; shape_leaf.
Qed.

Lemma setup_not_escalation e : setup_event e -> escalation_event e -> False.
Proof. by destruct e. Qed.

(** A run is set-up calls followed by one of three endings. *)
Lemma Init_run_split c args out evs :
  Init_run c args out evs ->
  exists pre post,
    evs = pre ++ post
    /\ Forall setup_event pre
    /\ ((post = [] /\ exists e, out = Returned (Some e))
        \/ (out = Returned None
            /\ exists e,
                 post = [EvOpenFile "/tmp/nsinit.log" log_flags perm_0666 (Err e)])
        \/ escalation c args out post).
Proof.
  induction 1 as [e evs out He _ (pre & post & -> & Hpre & Hend)|e|e|out post Hesc].
  - exists (e :: pre), post. split; [done|]. split; [by constructor|done].
  - exists [], []. split; [done|]. split; [constructor|]. left. eauto.
  - exists [], [EvOpenFile "/tmp/nsinit.log" log_flags perm_0666 (Err e)].
    split; [done|]. split; [constructor|]. right; left. eauto.
  - exists [], post. split; [done|]. split; [constructor|]. by right; right.
Qed.

(** No escalation call hides among set-up calls. *)
Lemma elem_of_setup pre post e :
  Forall setup_event pre -> escalation_event e ->
  e ∈ pre ++ post -> e ∈ post.
Proof.
  intros Hpre He Hin. apply elem_of_app in Hin as [Hin|Hin]; [|done].
  rewrite Forall_forall in Hpre. destruct (setup_not_escalation e); auto.
Qed.

Lemma filter_setup_writes pre :
  Forall setup_event pre -> List.filter is_write pre = [].
Proof.
  induction 1 as [|e pre He _ IH]; [done|]. simpl. rewrite IH. by destruct e.
Qed.

Lemma guarded_sound g b l :
  guarded g b l ->
  forall l1 e l2, l = l1 ++ e :: l2 -> b e -> exists e', e' ∈ l1 /\ g e'.
Proof.
  induction l as [|x l IH]; intros Hg l1 e l2 Hl Hb.
  - by destruct l1.
  - destruct Hg as [Hnb Hg].
    destruct l1 as [|y l1]; simpl in Hl; injection Hl as -> ->; [done|].
    destruct Hg as [Hg|Hg].
    + exists y. split; [apply list_elem_of_here|done].
    + destruct (IH Hg l1 e l2 eq_refl Hb) as (e' & Hin & He').
      exists e'. split; [by apply list_elem_of_further|done].
Qed.

Lemma guarded_app g b pre post :
  Forall (fun e => ~ b e) pre -> guarded g b post -> guarded g b (pre ++ post).
Proof. induction 1; simpl; intros; [done|]. split; [done|]. right. auto. Qed.

Lemma setup_not_switch pre :
  Forall setup_event pre -> Forall (fun e => ~ identity_switch e) pre.
Proof.
  intros H. eapply Forall_impl; [exact H|]. intros e Hs Hi. by destruct e.
Qed.

Lemma switch_escalation e : identity_switch e -> escalation_event e.
Proof. by destruct e. Qed.

Lemma failed_switch_escalation e : failed_switch e -> escalation_event e.
Proof. by destruct e. Qed.

Lemma env_before_mount evs : Forall env_event evs -> Forall before_mount evs.
Proof. intros H. eapply Forall_impl; [exact H|]. by intros []. Qed.

Lemma net_before_mount evs : Forall net_event evs -> Forall before_mount evs.
Proof. intros H. eapply Forall_impl; [exact H|]. by intros []. Qed.

(** ** Runs that meet an unregistered network type *)

Ltac dispatch_step :=
  lazymatch goal with
  | |- emits (call (setupNetwork ?X ?c ?ctx)) _ _ =>
      apply (emits_call _
               (fun err evs => Forall net_event evs /\ exists e, err = Some e));
      [ let w0 := fresh "w" in
        let evs := fresh "evs" in
        intros w0; destruct (setupNetwork_trace X c ctx w0) as (evs & ? & ?);
        exists evs; split; [done|]; split; [done|];
        by apply setupNetwork_unregistered
      | intros ? ? [? [? ->]] ]
  | |- _ => emits_step
  end.

Ltac dispatch_leaf :=
  cbv beta iota; cbn [app]; eexists; split; [reflexivity|]; split;
  [ repeat first
      [ apply Forall_nil_2
      | apply Forall_cons_2; [exact I|]
      | apply Forall_app_2; [by auto using env_before_mount, net_before_mount|] ]
  | let Hs := fresh "Hs" in
    let Hc := fresh "Hc" in
    intros Hs Hc;
    first [ by eexists
          | by in_inv Hs
          | exfalso; eapply Hc; find_in ] ].

Lemma Init_stops_at_dispatch X c u cp sp args w :
  Exists (unregistered X) (Networks c) ->
  exists evs,
    trace (Init X c u cp sp args w).2 = trace w ++ evs
    /\ stops_at_dispatch (Init X c u cp sp args w).1 evs.
Proof.
  intros Hex. unfold Init. apply emits_body.
  repeat dispatch_step; dispatch_leaf.
Qed.

(** ** The payload handed to the strategies *)

Ltac payload_step :=
  lazymatch goal with
  | |- emits (call (setupNetwork ?X ?c ?ctx)) _ _ =>
      apply (emits_call _
               (fun _ evs =>
                  Forall (fun e => exists cfg, cfg ∈ Networks c
                                               /\ invoked X ctx cfg e) evs));
      [ intros ?; apply setupNetwork_calls | intros ? ? ? ]
  | |- _ => emits_step
  end.

Ltac payload_leaf :=
  cbv beta iota; cbn [app];
  let Hin := fresh "Hin" in
  intros ? ? ? ? Hin;
  try match goal with Hm : mapping_writes _ _ _ _ |- _ =>
    inversion Hm; subst; clear Hm end;
  in_inv Hin;
  match goal with
  | HF : Forall _ ?l, H : _ ∈ ?l |- _ =>
      destruct (proj1 (Forall_forall _ l) HF _ H)
        as (? & ? & ? & ? & ? & [= -> -> -> ->]);
      split; [find_in|done]
  end.

Lemma Init_payload_calls X c u cp sp args w :
  exists evs,
    trace (Init X c u cp sp args w).2 = trace w ++ evs
    /\ payload_calls X c sp (Init X c u cp sp args w).1 evs.
Proof.
  unfold Init. apply emits_body.
  repeat payload_step; payload_leaf.
Qed.

(** ** The claims about [Init] *)

(** The writes of an ending, once its mapping writes are known. *)
Ltac open_mappings :=
  try match goal with Hm : mapping_writes _ _ _ _ |- _ =>
    inversion Hm; subst; clear Hm end.

(** ** The dispatch, to the call *)

Section setupNetwork_exact.

Variable X : Externals.
Variable context : Context.

(** The loop of the dispatch, to the call: the endpoints are served in
    order, and the loop stops at the first one whose type is not registered
    or whose [Initialize] fails. *)
Lemma net_loop_exact (l : list Network) (w : World) :
  exists served rest evs,
    l = served ++ rest
    /\ trace (range l (net_step X context) w).2 = trace w ++ evs
    /\ match (range l (net_step X context) w).1 with
       | Next _ => rest = [] /\ Forall2 (invoked_ok X context) served evs
       | Return r =>
           exists e, r = Some e
           /\ ((exists cfg rest',
                  rest = cfg :: rest'
                  /\ on_GetStrategy X (Type_ cfg) = Err e
                  /\ Forall2 (invoked_ok X context) served evs)
               \/ (exists served' cfg s evs',
                     served = served' ++ [cfg]
                     /\ evs = evs' ++ [EvInitialize s cfg context (Some e)]
                     /\ on_GetStrategy X (Type_ cfg) = Ok s
                     /\ Forall2 (invoked_ok X context) served' evs'))
       end.
Proof.
  revert w. induction l as [|cfg l IH]; intros w.
  - exists [], [], []. simpl. rewrite app_nil_r. by repeat split.
  - rewrite !range_cons, net_step_eq.
    destruct (on_GetStrategy X (Type_ cfg)) as [s|e] eqn:Hs.
    + cbn zeta.
      destruct (on_Initialize X s cfg context w) as [e|] eqn:Hi.
      * exists [cfg], l, [EvInitialize s cfg context (Some e)].
        split; [done|]. split; [done|]. cbn. exists e. split; [done|].
        right. exists [], cfg, s, []. by repeat split.
      * destruct (IH (log (EvInitialize s cfg context None) w))
          as (served & rest & evs & -> & Ht & Hres).
        exists (cfg :: served), rest, (EvInitialize s cfg context None :: evs).
        split; [done|]. split; [by rewrite Ht; simpl; rewrite <- app_assoc|].
        assert (invoked_ok X context cfg (EvInitialize s cfg context None))
          as Hok by (by exists s).
        destruct (range (served ++ rest) (net_step X context) _) as [[[]|r] w'];
          simpl in *.
        -- destruct Hres as [-> Hall]. split; [done|]. by constructor.
        -- destruct Hres as (e & -> & [(c' & rest' & -> & Hc' & Hall)
                                      |(served' & c' & s' & evs' & -> & -> & Hc' & Hall)]).
           ++ exists e. split; [done|]. left. exists c', rest'.
              split; [done|]. split; [done|]. by constructor.
           ++ exists e. split; [done|]. right.
              exists (cfg :: served'), c', s', (EvInitialize s cfg context None :: evs').
              split; [done|]. split; [done|]. split; [done|]. by constructor.
    + exists [], (cfg :: l), []. cbn. rewrite app_nil_r.
      split; [done|]. split; [done|]. exists e. split; [done|].
      left. exists cfg, l. by repeat split.
Qed.

Lemma setupNetwork_exact (c : Container) (w : World) :
  exists served rest evs,
    Networks c = served ++ rest
    /\ trace (setupNetwork X c context w).2 = trace w ++ evs
    /\ match (setupNetwork X c context w).1 with
       | None => rest = [] /\ Forall2 (invoked_ok X context) served evs
       | Some e =>
           (exists cfg rest',
              rest = cfg :: rest'
              /\ on_GetStrategy X (Type_ cfg) = Err e
              /\ Forall2 (invoked_ok X context) served evs)
           \/ (exists served' cfg s evs',
                 served = served' ++ [cfg]
                 /\ evs = evs' ++ [EvInitialize s cfg context (Some e)]
                 /\ on_GetStrategy X (Type_ cfg) = Ok s
                 /\ Forall2 (invoked_ok X context) served' evs')
       end.
Proof.
  rewrite setupNetwork_unfold. unfold body, bind.
  destruct (net_loop_exact (Networks c) w)
    as (served & rest & evs & Hl & Ht & Hres).
  exists served, rest, evs.
  destruct (range (Networks c) _ w) as [[[]|r] w']; simpl in *.
  - done.
  - destruct Hres as (e & -> & Hres). done.
Qed.

(** The calls of a dispatch that returned nil: one successful
    [Initialize] for each endpoint, in order. *)
Lemma setupNetwork_served (c : Container) (w : World) :
  exists evs,
    trace (setupNetwork X c context w).2 = trace w ++ evs
    /\ Forall net_event evs
    /\ ((setupNetwork X c context w).1 = None ->
        Forall2 (invoked_ok X context) (Networks c) evs).
Proof.
  destruct (setupNetwork_exact c w) as (served & rest & evs & Hl & Ht & Hres).
  destruct (setupNetwork_trace X c context w) as (evs' & Ht' & Hnet).
  rewrite Ht in Ht'. apply app_inv_head in Ht' as <-.
  exists evs. split; [done|]. split; [done|].
  intros Hnil. rewrite Hnil in Hres. destruct Hres as [-> Hok].
  by rewrite Hl, app_nil_r.
Qed.

End setupNetwork_exact.

(** ** The dispatch inside a run *)

Lemma env_no_dispatch evs : Forall env_event evs -> Forall no_dispatch evs.
Proof.
  intros H. eapply Forall_impl; [exact H|]. intros e He Hn. by destruct e.
Qed.

Lemma pdeath_no_dispatch evs : Forall pdeath_event evs -> Forall no_dispatch evs.
Proof.
  intros H. eapply Forall_impl; [exact H|]. intros e He Hn. by destruct e.
Qed.

Lemma dispatched_cons sp ctx served e evs :
  no_dispatch e -> dispatched sp ctx served evs ->
  dispatched sp ctx served (e :: evs).
Proof.
  intros He (l1 & l2 & l3 & -> & H1 & H2 & H3).
  exists (e :: l1), l2, l3. split; [done|]. split; [by constructor|done].
Qed.

Lemma dispatched_app sp ctx served seg evs :
  Forall no_dispatch seg -> dispatched sp ctx served evs ->
  dispatched sp ctx served (seg ++ evs).
Proof.
  intros Hseg (l1 & l2 & l3 & -> & H1 & H2 & H3).
  exists (seg ++ l1), l2, l3. split; [by rewrite <- app_assoc|].
  split; [by apply Forall_app_2|done].
Qed.

Lemma dispatched_read sp ctx served evs :
  dispatch_tail served evs ->
  dispatched sp ctx served (EvReadFromParent sp (Ok ctx) :: evs).
Proof.
  intros (l2 & l3 & -> & H2 & H3). exists [], l2, l3.
  split; [done|]. split; [constructor|done].
Qed.

Lemma dispatch_tail_cons served e evs :
  no_dispatch e -> dispatch_tail served evs -> dispatch_tail served (e :: evs).
Proof.
  intros He (l2 & l3 & -> & H2 & H3). exists (e :: l2), l3.
  split; [done|]. split; [by constructor|done].
Qed.

Lemma dispatch_tail_here served l3 :
  Forall no_dispatch l3 -> dispatch_tail served (served ++ EvLabelInit :: l3).
Proof. intros H3. exists [], l3. split; [done|]. split; [constructor|done]. Qed.

Ltac served_step :=
  lazymatch goal with
  | |- emits (call (setupNetwork ?X ?c ?ctx)) _ _ =>
      apply (emits_call _
               (fun err evs =>
                  Forall net_event evs
                  /\ (err = None -> Forall2 (invoked_ok X ctx) (Networks c) evs)));
      [ intros ?; apply setupNetwork_served | intros ? ? [? ?] ]
  | |- _ => emits_step
  end.

Ltac quiet_list :=
  repeat first
    [ apply Forall_nil_2
    | apply Forall_app_2;
      [ by eauto using env_no_dispatch, pdeath_no_dispatch | ]
    | apply Forall_cons_2; [ by intros [] | ] ].

Ltac served_leaf :=
  cbv beta iota; cbn [app]; open_mappings;
  let Hin := fresh "Hin" in
  intros Hin;
  first
    [ by in_inv Hin
    | clear Hin; eexists _, _; split;
      [ repeat first
          [ apply dispatched_read
          | apply dispatched_cons; [ by intros [] | ]
          | apply dispatched_app; [ by eauto using env_no_dispatch | ] ];
        repeat first
          [ apply dispatch_tail_here; quiet_list
          | apply dispatch_tail_cons; [ by intros [] | ] ]
      | match goal with H : None = None -> _ |- _ => exact (H eq_refl) end ] ].

Lemma Init_dispatch_served X c u cp sp args w :
  exists evs,
    trace (Init X c u cp sp args w).2 = trace w ++ evs
    /\ (EvLabelInit ∈ evs ->
        exists ctx served,
          dispatched sp ctx served evs
          /\ Forall2 (invoked_ok X ctx) (Networks c) served).
Proof.
  unfold Init.
  apply (emits_body _ (fun _ evs =>
    EvLabelInit ∈ evs ->
    exists ctx served,
      dispatched sp ctx served evs
      /\ Forall2 (invoked_ok X ctx) (Networks c) served)).
  repeat served_step; served_leaf.
Qed.

(** ** Securebits and identity *)

Lemma setup_no_privilege pre :
  Forall setup_event pre -> Forall (fun e => ~ privilege_call e) pre.
Proof.
  intros H. eapply Forall_impl; [exact H|]. intros e He Hp. by destruct e.
Qed.

Ltac no_privilege :=
  repeat first
    [ apply Forall_nil_2
    | apply Forall_cons_2; [ by intros [] | ] ].

Section Init_facts.

Variables (X : Externals) (c : Container) (uncleanRootfs consolePath : string)
          (syncPipe : SyncPipe) (args : list string) (w : World).

(** [Init] hands nil back to its caller in one case only: the log file
    could not be opened. *)
Lemma Init_nil_only_without_log :
  (Init X c uncleanRootfs consolePath syncPipe args w).1 = Returned None ->
  exists evs e,
    trace (Init X c uncleanRootfs consolePath syncPipe args w).2 = trace w ++ evs
    /\ last evs
       = Some (EvOpenFile "/tmp/nsinit.log" log_flags perm_0666 (Err e)).
Proof.
  intros Hnil.
  destruct (Init_shape X c uncleanRootfs consolePath syncPipe args w)
    as (evs & Ht & Hrun).
  rewrite Hnil in Hrun.
  apply Init_run_split in Hrun as (pre & post & -> & Hpre & Hend).
  destruct Hend as [[_ [e [=]]]|[[_ [e ->]]|Hesc]].
  - eexists _, e. split; [done|]. by rewrite last_app.
  - inversion Hesc.
Qed.

(** C1. Whenever the clone answered the pid of a child, the only
    [ioutil.WriteFile] calls of the run are the mapping writes: first
    [/proc/<pid>/uid_map], then [/proc/<pid>/gid_map], each at most once,
    each with mode 0644 and the one line ["0 1017 1"] (namespace id 0, host
    id 1017, one id; no newline in it).  Both files are written unless the
    child could not be found or a write was refused: then the run stops
    after the refused write. *)
Theorem Init_mapping_lines :
  exists evs,
    trace (Init X c uncleanRootfs consolePath syncPipe args w).2 = trace w ++ evs
    /\ mapping_line = "0 1017 1"
    /\ contains_byte "010" mapping_line = false
    /\ forall flags pid,
         EvClone flags (Ok pid) ∈ evs -> pid <> 0 ->
         let uid_write := EvWriteFile (uid_map pid) "0 1017 1" perm_0644 in
         let gid_write := EvWriteFile (gid_map pid) "0 1017 1" perm_0644 in
         (List.filter is_write evs = []
          /\ exists e, EvFindProcess pid (Err e) ∈ evs)
         \/ (exists r e, write_error r = Some e
                         /\ List.filter is_write evs = [uid_write r])
         \/ (exists r e, write_error r = Some e
                         /\ List.filter is_write evs
                            = [uid_write Written; gid_write r])
         \/ List.filter is_write evs = [uid_write Written; gid_write Written].
Proof.
  destruct (Init_shape X c uncleanRootfs consolePath syncPipe args w)
    as (evs & Ht & Hrun).
  exists evs. split; [done|]. split; [done|]. split; [done|].
  intros flags pid Hclone Hpid uid_write gid_write.
  apply Init_run_split in Hrun as (pre & post & -> & Hpre & Hend).
  apply elem_of_setup in Hclone; [|done..].
  rewrite List.filter_app, filter_setup_writes by done. cbn [app].
  destruct Hend as [[-> _]|[[_ [e ->]]|Hesc]]; [in_inv Hclone..|].
  destruct Hesc; unfold mapped, spawned in *; open_mappings;
    in_inv Hclone; try done; simpl.
  - left. split; [done|]. eexists. in_post.
  - right; left. by eexists _, _.
  - right; right; left. by eexists _, _.
  - by right; right; right.
  - by right; right; right.
Qed.

(** C2. When a mapping write for the spawned child fails, the last call of
    the run is the SIGKILL of the child, [Init] returns the error
    ["Failed to write mappings: <cause>"], and no wait was called. *)
Theorem Init_mapping_failure :
  exists evs,
    trace (Init X c uncleanRootfs consolePath syncPipe args w).2 = trace w ++ evs
    /\ forall flags pid,
         EvClone flags (Ok pid) ∈ evs -> pid <> 0 ->
         forall p d m r e,
           EvWriteFile p d m r ∈ evs -> write_error r = Some e ->
           (exists k, last evs = Some (EvKill pid SIGKILL k))
           /\ (Init X c uncleanRootfs consolePath syncPipe args w).1
              = Returned (Some ("Failed to write mappings: " +:+ e))
           /\ strings_Contains ("Failed to write mappings: " +:+ e)
                               "Failed to write mappings" = true
           /\ forall p' st, EvWait p' st ∉ evs.
Proof.
  destruct (Init_shape X c uncleanRootfs consolePath syncPipe args w)
    as (evs & Ht & Hrun).
  exists evs. split; [done|].
  intros flags pid Hclone Hpid p d m r e Hwrite Hr.
  apply Init_run_split in Hrun as (pre & post & -> & Hpre & Hend).
  apply elem_of_setup in Hclone; [|done..].
  apply elem_of_setup in Hwrite; [|done..].
  destruct Hend as [[-> _]|[[_ [e' ->]]|Hesc]]; [in_inv Hclone..|].
  destruct Hesc; unfold mapped, spawned in *; open_mappings;
    in_inv Hclone; try done; in_inv Hwrite; try done;
    try (simpl in Hr; congruence).
  all: match goal with
       | H1 : write_error ?r = Some ?a, H2 : write_error ?r = Some ?b |- _ =>
           lazymatch a with
           | b => fail
           | _ => rewrite H1 in H2; injection H2 as ->
           end
       end.
  all: split; [eexists; rewrite last_app; reflexivity|].
  all: split; [done|].
  all: split; [apply (Contains_prefix "Failed to write mappings" (": " +:+ _))|].
  all: intros p' st Hin; apply elem_of_setup in Hin; [|done..]; in_inv Hin.
Qed.

(** C3. When the wait on the child succeeds, the process ends through
    [os.Exit] with the exit status of the reported status word; for a child
    that exited with [code] in 0..255 (status word [code << 8]) that is
    [code] itself. *)
Theorem Init_exit_status :
  exists evs,
    trace (Init X c uncleanRootfs consolePath syncPipe args w).2 = trace w ++ evs
    /\ forall pid st,
         EvWait pid (Ok st) ∈ evs ->
         (Init X c uncleanRootfs consolePath syncPipe args w).1
           = Exited (WaitStatus_ExitStatus st)
         /\ last evs = Some (EvExit (WaitStatus_ExitStatus st))
         /\ forall code,
              0 <= code <= 255 -> st = Z.shiftl code 8 ->
              (Init X c uncleanRootfs consolePath syncPipe args w).1 = Exited code
              /\ last evs = Some (EvExit code).
Proof.
  destruct (Init_shape X c uncleanRootfs consolePath syncPipe args w)
    as (evs & Ht & Hrun).
  exists evs. split; [done|].
  intros pid st Hwait.
  apply Init_run_split in Hrun as (pre & post & -> & Hpre & Hend).
  apply elem_of_setup in Hwait; [|done..].
  assert ((Init X c uncleanRootfs consolePath syncPipe args w).1
            = Exited (WaitStatus_ExitStatus st)
          /\ last (pre ++ post) = Some (EvExit (WaitStatus_ExitStatus st)))
    as [Hout Hlast].
  { destruct Hend as [[-> _]|[[_ [e' ->]]|Hesc]]; [in_inv Hwait..|].
    destruct Hesc; unfold mapped, spawned in *; open_mappings; in_inv Hwait.
    split; [done|]. by rewrite last_app. }
  split; [done|]. split; [done|].
  intros code Hcode ->. by rewrite ExitStatus_of_exit in Hout, Hlast.
Qed.

(** C6. In every run, each switch of the identity is a [Setuid 1017] or a
    [Setgid 1017], and it comes after a successful
    [Prctl(PR_SET_SECUREBITS, 4|2, 0, 0, 0)], one call that carries both
    flags.  When a switch fails, the run made no clone and [Init] returns
    an error.  A run that reaches the clone made, right before the nested
    pipe and the clone, that [Prctl], then [Setuid 1017], then
    [Setgid 1017], each with success and in this order, and it changes
    securebits or identity nowhere else; a run that ends in the exec or in
    the exit has reached the clone. *)
Theorem Init_securebits_before_identity :
  securebits = Z.lor 4 2
  /\ exists evs,
       trace (Init X c uncleanRootfs consolePath syncPipe args w).2 = trace w ++ evs
       /\ (forall l1 e l2,
             evs = l1 ++ e :: l2 -> identity_switch e ->
             EvPrctl PR_SET_SECUREBITS (Z.lor 4 2) 0 0 0 None ∈ l1)
       /\ (forall e,
             e ∈ evs -> identity_switch e ->
             exists r, e = EvSetuid 1017 r \/ e = EvSetgid 1017 r)
       /\ (forall e,
             e ∈ evs -> failed_switch e ->
             (forall flags r, EvClone flags r ∉ evs)
             /\ exists msg,
                  (Init X c uncleanRootfs consolePath syncPipe args w).1
                  = Returned (Some msg))
       /\ (forall flags r,
             EvClone flags r ∈ evs ->
             exists pre sPipe tail,
               evs = pre ++ EvPrctl PR_SET_SECUREBITS (Z.lor 4 2) 0 0 0 None
                       :: EvSetuid 1017 None :: EvSetgid 1017 None
                       :: EvNewSyncPipe (Ok sPipe) :: EvClone flags r :: tail
               /\ Forall (fun e => ~ privilege_call e) pre
               /\ Forall (fun e => ~ privilege_call e) tail)
       /\ ((Init X c uncleanRootfs consolePath syncPipe args w).1 = Replaced
           \/ (exists code,
                 (Init X c uncleanRootfs consolePath syncPipe args w).1
                 = Exited code) ->
           exists flags pid, EvClone flags (Ok pid) ∈ evs).
Proof.
  split; [done|].
  destruct (Init_shape X c uncleanRootfs consolePath syncPipe args w)
    as (evs & Ht & Hrun).
  exists evs. split; [done|].
  apply Init_run_split in Hrun as (pre & post & -> & Hpre & Hend).
  split; [|split; [|split; [|split]]].
  - intros l1 e l2 Hl He.
    assert (guarded (fun e => e = prctl_call None) identity_switch (pre ++ post))
      as Hg.
    { apply guarded_app; [by apply setup_not_switch|].
      destruct Hend as [[-> _]|[[_ [e' ->]]|Hesc]]; [done|simpl; tauto|].
      destruct Hesc; unfold mapped, spawned; simpl; tauto. }
    destruct (guarded_sound _ _ _ Hg l1 e l2 Hl He) as (e' & Hin & ->). done.
  - intros e Hin He. apply elem_of_setup in Hin; [|done|by apply switch_escalation].
    destruct Hend as [[-> _]|[[_ [e' ->]]|Hesc]]; [in_inv Hin; try by subst..|].
    destruct Hesc; unfold mapped, spawned in *; open_mappings;
      in_inv Hin; subst; try done; eauto.
  - intros e Hin He.
    apply elem_of_setup in Hin; [|done|by apply failed_switch_escalation].
    destruct Hend as [[-> _]|[[_ [e' ->]]|Hesc]]; [in_inv Hin; try by subst..|].
    destruct Hesc; unfold mapped, spawned in *; open_mappings;
      in_inv Hin; subst; try done.
    all: split; [|by eauto].
    all: intros flags r Hc; apply elem_of_setup in Hc; [|done..]; in_inv Hc.
  - intros flags r Hclone. apply elem_of_setup in Hclone; [|done..].
    apply setup_no_privilege in Hpre.
    destruct Hend as [[-> _]|[[_ [e' ->]]|Hesc]]; [in_inv Hclone..|].
    destruct Hesc; unfold mapped, spawned in *; open_mappings; in_inv Hclone;
      (eexists pre, _, _; split; [reflexivity|]; split; [exact Hpre|];
       no_privilege).
  - intros Hout.
    destruct Hend as [[_ [e He]]|[[He _]|Hesc]].
    + rewrite He in Hout. by destruct Hout as [|[]].
    + rewrite He in Hout. by destruct Hout as [|[]].
    + destruct Hesc; try (by destruct Hout as [|[]]);
        eexists _, _; apply elem_of_app; right;
        unfold mapped, spawned; find_in.
Qed.

(** C8. With an endpoint whose type has no registered strategy, [Init]
    returns an error without having initialised the labels or the mount
    namespace and without any [Setuid] or [Setgid]; when the steps before
    the dispatch succeeded, the error is the one of the dispatch.  In every
    run, each [Initialize] is called on an endpoint of the container, through
    the strategy registered for its type, with the payload read from the
    parent; and a run that gets to [label.Init] has made, between the read
    of the payload and [label.Init], exactly one successful [Initialize] for
    each endpoint, in the order of the endpoints, and no other.  The
    dispatch itself serves the endpoints in order, each one once: it returns
    nil after one successful [Initialize] per endpoint, and otherwise stops
    at the first endpoint whose type is not registered (without a call for
    it) or whose [Initialize] failed (that call being its last), with that
    error. *)
Theorem Init_network_dispatch :
  (Exists (unregistered X) (Networks c) ->
   exists evs e,
     trace (Init X c uncleanRootfs consolePath syncPipe args w).2 = trace w ++ evs
     /\ (Init X c uncleanRootfs consolePath syncPipe args w).1 = Returned (Some e)
     /\ (EvLabelInit ∉ evs)
     /\ (forall rootfs console cc r,
           EvInitializeMountNamespace rootfs console cc r ∉ evs)
     /\ (forall id r, EvSetuid id r ∉ evs)
     /\ (forall id r, EvSetgid id r ∉ evs)
     /\ (EvSetsid None ∈ evs -> (forall e', EvSetctty (Some e') ∉ evs) ->
         exists e', e = "setup networking " +:+ e'))
  /\ (exists evs,
        trace (Init X c uncleanRootfs consolePath syncPipe args w).2 = trace w ++ evs
        /\ (forall s cfg ctx r,
              EvInitialize s cfg ctx r ∈ evs ->
              EvReadFromParent syncPipe (Ok ctx) ∈ evs
              /\ cfg ∈ Networks c
              /\ on_GetStrategy X (Type_ cfg) = Ok s)
        /\ (EvLabelInit ∈ evs ->
            exists ctx served,
              dispatched syncPipe ctx served evs
              /\ Forall2 (invoked_ok X ctx) (Networks c) served))
  /\ (forall context w0,
        exists served rest evs,
          Networks c = served ++ rest
          /\ trace (setupNetwork X c context w0).2 = trace w0 ++ evs
          /\ Forall2 (invoked X context) served evs
          /\ match (setupNetwork X c context w0).1 with
             | None => rest = [] /\ Forall2 (invoked_ok X context) served evs
             | Some e =>
                 (exists cfg rest',
                    rest = cfg :: rest'
                    /\ on_GetStrategy X (Type_ cfg) = Err e
                    /\ Forall2 (invoked_ok X context) served evs)
                 \/ (exists served' cfg s evs',
                       served = served' ++ [cfg]
                       /\ evs = evs' ++ [EvInitialize s cfg context (Some e)]
                       /\ on_GetStrategy X (Type_ cfg) = Ok s
                       /\ Forall2 (invoked_ok X context) served' evs')
             end).
Proof.
  split; [|split].
  - intros Hex.
    destruct (Init_stops_at_dispatch X c uncleanRootfs consolePath syncPipe
                args w Hex) as (evs & Ht & e & Hout & Hearly & Hmsg).
    exists evs, e. split; [done|]. split; [done|].
    rewrite Forall_forall in Hearly.
    split; [by intros Hin%Hearly|].
    split; [by intros rootfs console cc r Hin%Hearly|].
    split; [by intros id r Hin%Hearly|].
    split; [by intros id r Hin%Hearly|].
    done.
  - destruct (Init_payload_calls X c uncleanRootfs consolePath syncPipe args w)
      as (evs & Ht & Hcalls).
    destruct (Init_dispatch_served X c uncleanRootfs consolePath syncPipe args w)
      as (evs' & Ht' & Hserved).
    rewrite Ht in Ht'. apply app_inv_head in Ht' as <-.
    by exists evs.
  - intros context w0.
    destruct (setupNetwork_exact X context c w0)
      as (served & rest & evs & Hl & Ht & Hres).
    exists served, rest, evs. split; [done|]. split; [done|]. split; [|done].
    assert (forall l k, Forall2 (invoked_ok X context) l k ->
                        Forall2 (invoked X context) l k) as Hweak.
    { intros l k H. eapply Forall2_impl; [exact H|].
      intros cfg e (s & Hs & ->). by exists s, None. }
    destruct (setupNetwork X c context w0).1 as [e|].
    + destruct Hres as [(cfg & rest' & _ & _ & Hok)
                       |(served' & cfg & s & evs' & -> & -> & Hs & Hok)].
      * by apply Hweak.
      * apply Forall2_app; [by apply Hweak|].
        constructor; [|constructor]. by exists s, (Some e).
    + destruct Hres as [_ Hok]. by apply Hweak.
Qed.

End Init_facts.

(** ** The claims at concrete runs *)

Lemma Init_mapping_lines_witness :
  EvClone clone_flags (Ok 4242)
    ∈ trace (Init X_calm container0 "/rootfs" "" pipe3 ["/bin/true"] world0).2
  /\ 4242 <> 0
  /\ List.filter is_write
       (trace (Init X_calm container0 "/rootfs" "" pipe3 ["/bin/true"] world0).2)
     = [EvWriteFile (uid_map 4242) "0 1017 1" perm_0644 Written;
        EvWriteFile (gid_map 4242) "0 1017 1" perm_0644 Written].
Proof.
  destruct (Init_mapping_lines X_calm container0 "/rootfs" "" pipe3
              ["/bin/true"] world0) as (evs & Ht & _ & _ & H).
  change (trace world0 ++ evs) with evs in Ht. subst evs.
  assert (EvClone clone_flags (Ok 4242)
            ∈ trace (Init X_calm container0 "/rootfs" "" pipe3
                       ["/bin/true"] world0).2) as Hin.
  { vm_compute. find_in. }
  split; [exact Hin|]. split; [discriminate|].
  pose proof (H clone_flags 4242 Hin ltac:(discriminate)) as Hd.
  cbv zeta in Hd.
  destruct Hd as [[Hw _]|[(r & e & _ & Hw)|[(r & e & He & Hw)|Hw]]].
  - vm_compute in Hw. discriminate Hw.
  - vm_compute in Hw. discriminate Hw.
  - vm_compute in Hw. injection Hw as <-. discriminate He.
  - exact Hw.
Defined.

Lemma Init_mapping_failure_witness :
  (exists k,
     last (trace (Init X_denied container0 "/rootfs" "" pipe3
                    ["/bin/true"] world0).2)
     = Some (EvKill 4242 SIGKILL k))
  /\ (Init X_denied container0 "/rootfs" "" pipe3 ["/bin/true"] world0).1
     = Returned (Some "Failed to write mappings: permission denied")
  /\ forall p st,
       EvWait p st
         ∉ trace (Init X_denied container0 "/rootfs" "" pipe3
                    ["/bin/true"] world0).2.
Proof.
  destruct (Init_mapping_failure X_denied container0 "/rootfs" "" pipe3
              ["/bin/true"] world0) as (evs & Ht & H).
  change (trace world0 ++ evs) with evs in Ht. subst evs.
  destruct (H clone_flags 4242) with
    (p := uid_map 4242) (d := "0 1017 1") (m := perm_0644)
    (r := OpenFailed "permission denied") (e := "permission denied")
    as (Hkill & Hout & _ & Hwait).
  - vm_compute. find_in.
  - discriminate.
  - vm_compute. find_in.
  - reflexivity.
  - split; [exact Hkill|]. split; [exact Hout|exact Hwait].
Defined.

Lemma Init_exit_status_witness :
  (Init X_exit7 container0 "/rootfs" "" pipe3 ["/bin/true"] world0).1 = Exited 7.
Proof.
  destruct (Init_exit_status X_exit7 container0 "/rootfs" "" pipe3
              ["/bin/true"] world0) as (evs & Ht & H).
  change (trace world0 ++ evs) with evs in Ht. subst evs.
  destruct (H 4242 (Z.shiftl 7 8)) as (_ & _ & Hcode).
  - vm_compute. find_in.
  - destruct (Hcode 7) as [Hout _]; [lia|reflexivity|exact Hout].
Defined.

Lemma Init_securebits_before_identity_witness :
  ((forall flags r,
     EvClone flags r
       ∉ trace (Init X_nosetuid container0 "/rootfs" "" pipe3
                  ["/bin/true"] world0).2)
  /\ (exists msg,
        (Init X_nosetuid container0 "/rootfs" "" pipe3 ["/bin/true"] world0).1
        = Returned (Some msg))
  /\ EvPrctl PR_SET_SECUREBITS (Z.lor 4 2) 0 0 0 None
       ∈ take 17 (trace (Init X_nosetuid container0 "/rootfs" "" pipe3
                           ["/bin/true"] world0).2))
  /\ (Init X_calm container0 "/rootfs" "" pipe3 ["/bin/true"] world0).1
     = Exited 0
  /\ exists pre sPipe tail,
       trace (Init X_calm container0 "/rootfs" "" pipe3 ["/bin/true"] world0).2
       = pre ++ EvPrctl PR_SET_SECUREBITS (Z.lor 4 2) 0 0 0 None
           :: EvSetuid 1017 None :: EvSetgid 1017 None
           :: EvNewSyncPipe (Ok sPipe) :: EvClone clone_flags (Ok 4242) :: tail
       /\ Forall (fun e => ~ privilege_call e) pre
       /\ Forall (fun e => ~ privilege_call e) tail.
Proof.
  split.
  - destruct (Init_securebits_before_identity X_nosetuid container0 "/rootfs" ""
                pipe3 ["/bin/true"] world0)
      as (_ & evs & Ht & Hord & _ & Hfail & _).
    change (trace world0 ++ evs) with evs in Ht. subst evs.
    destruct (Hfail (EvSetuid 1017 (Some "operation not permitted")))
      as [Hclone Hout].
    + vm_compute. find_in.
    + exact I.
    + split; [exact Hclone|]. split; [exact Hout|].
      apply (Hord _ (EvSetuid 1017 (Some "operation not permitted")) []);
        [vm_compute; reflexivity|exact I].
  - split; [reflexivity|].
    destruct (Init_securebits_before_identity X_calm container0 "/rootfs" ""
                pipe3 ["/bin/true"] world0)
      as (_ & evs & Ht & _ & _ & _ & Hclone & Hrun).
    change (trace world0 ++ evs) with evs in Ht. subst evs.
    apply Hclone. vm_compute. find_in.
Defined.

Lemma Init_network_dispatch_witness :
  (Exists (unregistered X_calm) (Networks container_two)
   /\ exists evs e,
        trace (Init X_calm container_two "/rootfs" "" pipe3 ["/bin/true"] world0).2
          = trace world0 ++ evs
        /\ (Init X_calm container_two "/rootfs" "" pipe3 ["/bin/true"] world0).1
           = Returned (Some e)
        /\ (EvLabelInit ∉ evs)
        /\ (forall rootfs console cc r,
              EvInitializeMountNamespace rootfs console cc r ∉ evs)
        /\ (forall id r, EvSetuid id r ∉ evs)
        /\ (forall id r, EvSetgid id r ∉ evs)
        /\ (EvSetsid None ∈ evs -> (forall e', EvSetctty (Some e') ∉ evs) ->
            exists e', e = "setup networking " +:+ e'))
  /\ exists ctx served,
       dispatched pipe3 ctx served
         (trace (Init X_calm container0 "/rootfs" "" pipe3 ["/bin/true"] world0).2)
       /\ Forall2 (invoked_ok X_calm ctx) (Networks container0) served
       /\ length served = 1%nat.
Proof.
  split.
  - assert (Exists (unregistered X_calm) (Networks container_two)) as Hex.
    { apply Exists_cons_tl, Exists_cons_hd. eexists. reflexivity. }
    split; [exact Hex|].
    exact (proj1 (Init_network_dispatch X_calm container_two "/rootfs" "" pipe3
                    ["/bin/true"] world0) Hex).
  - destruct (Init_network_dispatch X_calm container0 "/rootfs" "" pipe3
                ["/bin/true"] world0) as (_ & (evs & Ht & _ & Hserved) & _).
    change (trace world0 ++ evs) with evs in Ht. subst evs.
    destruct Hserved as (ctx & served & Hd & Hok); [vm_compute; find_in|].
    exists ctx, served. split; [exact Hd|]. split; [exact Hok|].
    by rewrite <- (Forall2_length _ _ _ Hok).
Defined.

(** C4, at a run where the code breaks it.  Every call succeeds except the
    opening of [/tmp/nsinit.log]: [Init] returns nil, although it stopped
    right there, before the profile, the securebits, the identity switch,
    the clone and the exec. *)
Theorem Init_log_failure_returns_nil :
  (Init X_nolog container0 "/rootfs" "" pipe3 ["/bin/true"] world0).1
    = Returned None
  /\ last (trace (Init X_nolog container0 "/rootfs" "" pipe3
                    ["/bin/true"] world0).2)
     = Some (EvOpenFile "/tmp/nsinit.log" log_flags perm_0666
               (Err "open /tmp/nsinit.log: permission denied"))
  /\ Forall setup_event
       (trace (Init X_nolog container0 "/rootfs" "" pipe3
                 ["/bin/true"] world0).2)
  /\ forall name r,
       EvApplyProfile name r
         ∉ trace (Init X_nolog container0 "/rootfs" "" pipe3
                    ["/bin/true"] world0).2.
Proof.
  split; [by vm_compute|]. split; [by vm_compute|].
  split; [vm_compute; repeat constructor|].
  intros name r Hin. vm_compute in Hin. in_inv Hin.
Qed.

(** * Further properties *)

(** ** More on the environment reconstruction *)

Lemma declared_join (pair : string) :
  contains_byte "=" pair = true ->
  pair = (declared pair).1 +:+ "=" +:+ (declared pair).2
  /\ contains_byte "=" (declared pair).1 = false.
Proof.
  intros H. unfold declared.
  destruct (cut "=" pair) as [[k v]|] eqn:Hc.
  - by apply cut_Some in Hc.
  - apply cut_None in Hc. congruence.
Qed.

Lemma foldl_insert_lookup (l : list string) (m : gmap string string) (k v : string) :
  foldl (fun m pair => <[(declared pair).1 := (declared pair).2]> m) m l !! k = Some v
  <-> last_binding l k v
      \/ (Forall (fun p => (declared p).1 <> k) l /\ m !! k = Some v).
Proof.
  revert m. induction l as [|x l IH]; intros m; simpl.
  - split; [by right|]. intros [(l1 & p & l2 & Hl & _)|[_ H]]; [|done].
    by destruct l1.
  - rewrite IH. split.
    + intros [(l1 & p & l2 & -> & Hp & Hl2)|[Hl Hm]].
      * left. by exists (x :: l1), p, l2.
      * destruct (decide ((declared x).1 = k)) as [Hk|Hk].
        -- left. exists [], x, l. split; [done|]. split; [|done].
           rewrite <- Hk, lookup_insert_eq in Hm. injection Hm as <-.
           rewrite <- Hk. by destruct (declared x).
        -- right. split; [by constructor|]. by rewrite lookup_insert_ne in Hm.
    + intros [(l1 & p & l2 & Hl & Hp & Hl2)|[Hl Hm]].
      * destruct l1 as [|y l1]; simpl in Hl; injection Hl as -> ->.
        -- right. split; [done|]. rewrite Hp. simpl. apply lookup_insert_eq.
        -- left. by exists l1, p, l2.
      * apply Forall_cons in Hl as [Hx Hl]. right. split; [done|].
        by rewrite lookup_insert_ne.
Qed.

Lemma applied_same_process (pre : list string) (w : World) :
  same_process w (applied pre w).
Proof.
  unfold applied.
  assert (same_process w (set_environ ∅ (log EvClearenv w))) as H by done.
  revert H. generalize (set_environ ∅ (log EvClearenv w)).
  induction pre as [|p pre IH]; intros w1 H; simpl; [done|].
  apply IH. by destruct H as (? & ? & ? & ?).
Qed.

Section LoadContainerEnvironment_more.

Variable X : Externals.

(** What the loop over the entries keeps, whatever [os.Setenv] answers. *)
Lemma env_loop_inv (all l : list string) (w : World) :
  l ⊆ all ->
  exists evs,
    trace (range l (env_step X) w).2 = trace w ++ evs
    /\ Forall (env_call_of all) evs
    /\ same_process w (range l (env_step X) w).2
    /\ forall k v,
         environ (range l (env_step X) w).2 !! k = Some v ->
         environ w !! k = Some v
         \/ exists pair, pair ∈ all /\ well_formed pair /\ declared pair = (k, v).
Proof.
  revert w. induction l as [|p l IH]; intros w Hsub.
  - exists []. simpl. rewrite app_nil_r. split; [done|]. split; [done|].
    split; [done|]. by left.
  - rewrite range_cons.
    assert (p ∈ all) as Hp by (apply Hsub, list_elem_of_here).
    assert (l ⊆ all) as Hl by (intros x Hx; by apply Hsub, list_elem_of_further).
    destruct (contains_byte "=" p) eqn:Hwf.
    + rewrite env_step_valid by done. cbn zeta.
      destruct (declared_join p Hwf) as [Hjoin Hkey].
      destruct (on_Setenv X _ _ w) as [e|] eqn:Hset.
      * eexists [_]. split; [done|]. split; [|split; [done|by left]].
        constructor; [|done]. by exists p.
      * destruct (IH (applied1 w p) Hl) as (evs & Ht & Hevs & Hsame & Henv).
        exists (EvSetenv (declared p).1 (declared p).2 None :: evs).
        split; [by rewrite Ht; simpl; rewrite <- app_assoc|].
        split; [constructor; [by exists p|done]|].
        split; [done|].
        intros k v Hkv. destruct (Henv k v Hkv) as [Hw|Hex]; [|by right].
        simpl in Hw. destruct (decide ((declared p).1 = k)) as [Hk|Hk].
        -- right. exists p. split; [done|]. split; [done|].
           rewrite <- Hk, lookup_insert_eq in Hw. injection Hw as <-.
           rewrite <- Hk. by destruct (declared p).
        -- left. by rewrite lookup_insert_ne in Hw.
    + rewrite env_step_invalid by done.
      exists []. simpl. rewrite app_nil_r. split; [done|]. split; [done|].
      split; [done|]. by left.
Qed.

(** X1. Whatever happens later, [LoadContainerEnvironment] first clears the
    environment: after the call, failed or not, every variable of the
    process comes from a well-formed declared entry, so nothing inherited
    survives.  Its calls are the clearing followed by [os.Setenv] on declared
    entries split at their first ['='] (the key holds no ['='], and key, ['=']
    and value give the entry back); files and parent-death signal are left
    alone. *)
Theorem LoadContainerEnvironment_nothing_inherited (c : Container) (w : World) :
  exists evs,
    trace (LoadContainerEnvironment X c w).2 = trace w ++ EvClearenv :: evs
    /\ Forall (env_call_of (Env c)) evs
    /\ same_process w (LoadContainerEnvironment X c w).2
    /\ forall k v,
         environ (LoadContainerEnvironment X c w).2 !! k = Some v ->
         exists pair, pair ∈ Env c /\ well_formed pair /\ declared pair = (k, v).
Proof.
  rewrite LoadContainerEnvironment_unfold. unfold body, bind at 1, os_Clearenv.
  unfold bind.
  destruct (env_loop_inv (Env c) (Env c) (set_environ ∅ (log EvClearenv w)))
    as (evs & Ht & Hevs & Hsame & Henv); [done|].
  exists evs.
  destruct (range (Env c) (env_step X) _) as [[[]|r] w']; simpl in *;
    (split; [by rewrite Ht, <- app_assoc|]);
    (split; [done|]); (split; [done|]);
    intros k v Hkv; by destruct (Henv k v Hkv) as [Hw|Hex].
Qed.

(** X2. When every declared entry holds an ['='] and [os.Setenv] accepts
    them all, [LoadContainerEnvironment] returns nil and the environment is
    exactly the declared one: a variable is set to a value if and only if
    that is the binding of the last entry with that key. *)
Theorem LoadContainerEnvironment_exact (c : Container) (w : World) :
  Forall well_formed (Env c) ->
  (forall pair w', pair ∈ Env c ->
     on_Setenv X (declared pair).1 (declared pair).2 w' = None) ->
  (LoadContainerEnvironment X c w).1 = None
  /\ (forall k v,
        environ (LoadContainerEnvironment X c w).2 !! k = Some v
        <-> last_binding (Env c) k v)
  /\ trace (LoadContainerEnvironment X c w).2
     = trace w ++ EvClearenv
         :: ((fun pair => EvSetenv (declared pair).1 (declared pair).2 None)
               <$> Env c).
Proof.
  intros Hwf Hset.
  assert (LoadContainerEnvironment X c w = (None, applied (Env c) w)) as ->.
  { rewrite LoadContainerEnvironment_unfold. unfold body, bind at 1, os_Clearenv.
    unfold bind at 1.
    rewrite <- (app_nil_r (Env c)) at 1.
    rewrite (env_loop_applied X (Env c) []) by done.
    reflexivity. }
  split; [done|]. split; [|apply applied_trace].
  intros k v. simpl. rewrite applied_environ, foldl_insert_lookup.
  split; [intros [H|[_ H]]; [done|by rewrite lookup_empty in H]|by left].
Qed.

End LoadContainerEnvironment_more.

Lemma LoadContainerEnvironment_exact_witness :
  (LoadContainerEnvironment X_calm container0 world0).1 = None
  /\ environ (LoadContainerEnvironment X_calm container0 world0).2 !! "HOME"
     = Some "/root"
  /\ last_binding (Env container0) "HOME" "/root".
Proof.
  destruct (LoadContainerEnvironment_exact X_calm container0 world0)
    as (Hnil & Henv & _).
  - repeat constructor.
  - intros pair w' Hin.
    apply elem_of_cons in Hin as [->|Hin]; [reflexivity|].
    apply list_elem_of_singleton in Hin as ->. reflexivity.
  - split; [exact Hnil|].
    assert (last_binding (Env container0) "HOME" "/root") as Hlast.
    { exists ["PATH=/bin"], "HOME=/root", []. repeat split. constructor. }
    split; [by apply Henv|exact Hlast].
Defined.

(** ** More on the mapping files *)

Section writeUserMappings_more.

Variable X : Externals.

(** X3. [writeUserMappings] changes nothing but the two mapping files of
    [pid]; it returns nil exactly when both writes went through, and then
    both files hold the mapping text; when only the second write fails, its
    error is returned and the first file stays written. *)
Theorem writeUserMappings_files (pid : Z) (mappings : string) (w : World) :
  exists evs,
    trace (writeUserMappings X pid mappings w).2 = trace w ++ evs
    /\ mapping_writes pid mappings (writeUserMappings X pid mappings w).1 evs
    /\ environ (writeUserMappings X pid mappings w).2 = environ w
    /\ pdeathsig (writeUserMappings X pid mappings w).2 = pdeathsig w
    /\ (forall p, p <> uid_map pid -> p <> gid_map pid ->
          files (writeUserMappings X pid mappings w).2 !! p = files w !! p)
    /\ (EvWriteFile (uid_map pid) mappings perm_0644 Written ∈ evs ->
        data <$> files (writeUserMappings X pid mappings w).2 !! uid_map pid
          = Some mappings)
    /\ ((writeUserMappings X pid mappings w).1 = None <->
        evs = [EvWriteFile (uid_map pid) mappings perm_0644 Written;
               EvWriteFile (gid_map pid) mappings perm_0644 Written])
    /\ ((writeUserMappings X pid mappings w).1 = None ->
        data <$> files (writeUserMappings X pid mappings w).2 !! gid_map pid
          = Some mappings).
Proof.
  pose proof (uid_map_neq_gid_map pid) as Hne.
  unfold writeUserMappings, body, range, bind, ioutil_WriteFile, return_if_err.
  fold (uid_map pid) (gid_map pid).
  destruct (on_WriteFile X (uid_map pid) mappings perm_0644 w)
    as [|e|e part] eqn:H1; cbn.
  - match goal with
    | |- context [on_WriteFile X (gid_map pid) mappings perm_0644 ?w1] =>
        destruct (on_WriteFile X (gid_map pid) mappings perm_0644 w1)
          as [|e|e part] eqn:H2
    end; cbn; eexists [_; _]; rewrite <- app_assoc;
      (split; [done|]);
      (split; [first [apply both_written | by apply gid_map_failed]|]);
      (split; [done|]); (split; [done|]);
      (split; [intros p Hu Hg; unfold store;
               by rewrite ?lookup_insert_ne by done|]);
      (split; [intros _; unfold store;
               by rewrite ?lookup_insert_ne, lookup_insert_eq by done|]);
      (split; [split; [done|]; try done; intros [= ]|]);
      try done; intros _; unfold store; by rewrite lookup_insert_eq.
  - eexists [_]. split; [done|]. split; [by apply uid_map_failed|].
    split; [done|]. split; [done|]. split; [done|].
    split; [intros Hin; apply list_elem_of_singleton in Hin; discriminate|].
    split; [split; intros [= ]|]. intros [= ].
  - eexists [_]. split; [done|]. split; [by apply uid_map_failed|].
    split; [done|]. split; [done|].
    split; [intros p Hu Hg; unfold store; by rewrite lookup_insert_ne|].
    split; [intros Hin; apply list_elem_of_singleton in Hin; discriminate|].
    split; [split; intros [= ]|]. intros [= ].
Qed.

End writeUserMappings_more.

(** ** More on the parent-death signal *)

Section RestoreParentDeathSignal_more.

Variable X : Externals.

(** X5. [RestoreParentDeathSignal] never touches environment or files, and
    the signal in force changes only by a successful install of
    [uintptr(old)].  It returns nil only if [old] is zero, or the value read
    already is [old], or the install went through (and any signal to itself
    too): so after a nil return with a signal number [old <> 0], [old] is in
    force. *)
Theorem RestoreParentDeathSignal_post (old : Z) (w : World) :
  environ (RestoreParentDeathSignal X old w).2 = environ w
  /\ files (RestoreParentDeathSignal X old w).2 = files w
  /\ (pdeathsig (RestoreParentDeathSignal X old w).2 = pdeathsig w
      \/ pdeathsig (RestoreParentDeathSignal X old w).2 = uintptr old)
  /\ ((RestoreParentDeathSignal X old w).1 = None ->
      old <> 0 -> 0 <= old < 2 ^ 64 ->
      pdeathsig (RestoreParentDeathSignal X old w).2 = old).
Proof.
  unfold RestoreParentDeathSignal, body, bind, system_GetParentDeathSignal,
    system_ParentDeathSignal, syscall_Getppid, syscall_Getpid, syscall_Kill,
    return_if_err, ext.
  destruct (old =? 0) eqn:H0; cbn.
  { apply Z.eqb_eq in H0. repeat split; [by left|done]. }
  destruct (on_GetParentDeathSignal X w); cbn.
  { repeat split; [by left|done]. }
  destruct (old =? pdeathsig w) eqn:Hc; cbn.
  { apply Z.eqb_eq in Hc. repeat split; [by left|done]. }
  destruct (on_ParentDeathSignal X _ _); cbn.
  { repeat split; [by left|done]. }
  destruct (parent_pid w =? 1); cbn;
    (split; [done|]); (split; [done|]); (split; [by right|]);
    intros _ _ Hr; by apply uintptr_small.
Qed.

(** X6. The two ways [RestoreParentDeathSignal] fails before it signals:
    a failed read gives ["get parent death signal <cause>"] and a failed
    install ["set parent death signal <cause>"]; in both cases the signal in
    force is unchanged and no signal is sent. *)
Theorem RestoreParentDeathSignal_errors (old : Z) (w : World) :
  old <> 0 ->
  (forall e,
     on_GetParentDeathSignal X w = Some e ->
     RestoreParentDeathSignal X old w
     = (Some ("get parent death signal " +:+ e),
        log (EvGetParentDeathSignal (Err e)) w))
  /\ (forall e,
        on_GetParentDeathSignal X w = None ->
        pdeathsig w <> old ->
        let w1 := log (EvGetParentDeathSignal (Ok (pdeathsig w))) w in
        on_ParentDeathSignal X (uintptr old) w1 = Some e ->
        RestoreParentDeathSignal X old w
        = (Some ("set parent death signal " +:+ e),
           log (EvParentDeathSignal (uintptr old) (Some e)) w1)).
Proof.
  intros Hold. apply Z.eqb_neq in Hold.
  split.
  - intros e Hget.
    unfold RestoreParentDeathSignal, body, bind, system_GetParentDeathSignal, ext.
    rewrite Hold. cbn. by rewrite Hget.
  - intros e Hget Hcur w1 Hset.
    assert ((old =? pdeathsig w) = false) as Hne by (apply Z.eqb_neq; congruence).
    unfold RestoreParentDeathSignal, body, bind, system_GetParentDeathSignal,
      system_ParentDeathSignal, return_if_err, ext.
    rewrite Hold. cbn. rewrite Hget, Hne. cbn. fold w1. by rewrite Hset.
Qed.

End RestoreParentDeathSignal_more.

Lemma RestoreParentDeathSignal_post_witness :
  (RestoreParentDeathSignal X_calm 15 orphan).1 = None
  /\ pdeathsig (RestoreParentDeathSignal X_calm 15 orphan).2 = 15.
Proof.
  split; [reflexivity|].
  destruct (RestoreParentDeathSignal_post X_calm 15 orphan) as (_ & _ & _ & H).
  apply H; [reflexivity|discriminate|split; [discriminate|reflexivity]].
Defined.

(** A platform that cannot read the parent-death signal. *)
Lemma RestoreParentDeathSignal_errors_witness :
  RestoreParentDeathSignal X_nopdeath 15 orphan
  = (Some "get parent death signal invalid argument",
     log (EvGetParentDeathSignal (Err "invalid argument")) orphan).
Proof.
  destruct (RestoreParentDeathSignal_errors X_nopdeath 15 orphan) as [H _];
    [discriminate|].
  apply H. reflexivity.
Defined.

(** ** [SetupUser] and [FinalizeNamespace] *)

(** Where a call sits in a short list of calls. *)
Ltac place H l1 :=
  destruct l1 as [|? [|? [|? [|? [|? [|? [|? [|? [|? l1]]]]]]]]];
  simplify_eq/=; try done; try (by destruct l1).

Section finalize_facts.

Variable F : Finalizers.

(** X7. [SetupUser] first looks the user up, with the current uid and gid
    as defaults, and changes nothing when the lookup fails.  It then sets
    supplementary groups, gid and uid in that order, each with the value the
    lookup gave and only after the step before it succeeded, so that the uid
    is given up last.  It returns nil exactly when all four calls succeeded;
    otherwise its error is the cause of the last call, under the name of
    that call. *)
Theorem SetupUser_order (u : string) (p : Proc) :
  exists evs,
    calls (SetupUser F u p).2 = calls p ++ evs
    /\ (exists r, head evs
                  = Some (CallGetUserGroupSupplementary u (real_uid p) (real_gid p) r))
    /\ (forall l1 gid res l2,
          evs = l1 ++ CallSetgid gid res :: l2 ->
          exists uid gids,
            l1 = [CallGetUserGroupSupplementary u (real_uid p) (real_gid p)
                    (Ok (uid, gid, gids));
                  CallSetgroups gids None])
    /\ (forall l1 uid res l2,
          evs = l1 ++ CallSetuid uid res :: l2 ->
          l2 = []
          /\ exists gid gids,
               l1 = [CallGetUserGroupSupplementary u (real_uid p) (real_gid p)
                       (Ok (uid, gid, gids));
                     CallSetgroups gids None; CallSetgid gid None])
    /\ ((SetupUser F u p).1 = None <->
        exists uid gid gids,
          evs = [CallGetUserGroupSupplementary u (real_uid p) (real_gid p)
                   (Ok (uid, gid, gids));
                 CallSetgroups gids None; CallSetgid gid None;
                 CallSetuid uid None])
    /\ (forall msg,
          (SetupUser F u p).1 = Some msg ->
          (exists e, evs = [CallGetUserGroupSupplementary u (real_uid p)
                              (real_gid p) (Err e)]
                     /\ msg = "get supplementary groups " +:+ e)
          \/ (exists gids e, last evs = Some (CallSetgroups gids (Some e))
                             /\ msg = "setgroups " +:+ e)
          \/ (exists gid e, last evs = Some (CallSetgid gid (Some e))
                            /\ msg = "setgid " +:+ e)
          \/ (exists uid e, last evs = Some (CallSetuid uid (Some e))
                            /\ msg = "setuid " +:+ e)).
Proof.
  unfold SetupUser, st_body, st_bind, fin_Getuid, fin_Getgid,
    user_GetUserGroupSupplementary, fsystem_Setgroups, fsystem_Setgid,
    fsystem_Setuid, fin_ext, st_return_if_err. cbn zeta.
  destruct (fin_GetUserGroupSupplementary F u (real_uid p) (real_gid p) p)
    as [[[uid gid] gids]|e] eqn:Hlookup; cbn.
  2: { eexists [_]. split; [done|]. split; [by eexists|].
       split; [intros l1 ? ? l2 H; place H l1|].
       split; [intros l1 ? ? l2 H; place H l1|].
       split; [split; [done|intros (? & ? & ? & [= ])]|].
       intros msg [= <-]. left. by eexists. }
  destruct (fin_Setgroups F gids _) as [e|] eqn:Hgroups; cbn.
  { eexists [_; _]. rewrite <- app_assoc. split; [done|]. split; [by eexists|].
    split; [intros l1 ? ? l2 H; place H l1|].
    split; [intros l1 ? ? l2 H; place H l1|].
    split; [split; [done|intros (? & ? & ? & [= ])]|].
    intros msg [= <-]. right; left. by eexists _, _. }
  destruct (fin_Setgid F gid _) as [e|] eqn:Hgid; cbn.
  { eexists [_; _; _]. rewrite <- !app_assoc. split; [done|].
    split; [by eexists|].
    split; [intros l1 ? ? l2 H; place H l1; by eexists _, _|].
    split; [intros l1 ? ? l2 H; place H l1|].
    split; [split; [done|intros (? & ? & ? & [= ])]|].
    intros msg [= <-]. right; right; left. by eexists _, _. }
  destruct (fin_Setuid F uid _) as [e|] eqn:Huid; cbn.
  { eexists [_; _; _; _]. rewrite <- !app_assoc. split; [done|].
    split; [by eexists|].
    split; [intros l1 ? ? l2 H; place H l1; by eexists _, _|].
    split; [intros l1 ? ? l2 H; place H l1; split; [done|]; by eexists _, _|].
    split; [split; [done|intros (? & ? & ? & [= ])]|].
    intros msg [= <-]. right; right; right. by eexists _, _. }
  eexists [_; _; _; _]. rewrite <- !app_assoc. split; [done|].
  split; [by eexists|].
  split; [intros l1 ? ? l2 H; place H l1; by eexists _, _|].
  split; [intros l1 ? ? l2 H; place H l1; split; [done|]; by eexists _, _|].
  split; [split; [intros _; by eexists _, _, _|done]|].
  intros msg [= ].
Qed.

(** X8. [FinalizeNamespace] closes the descriptors from 3 upwards before
    anything else, and stops there when that fails.  Every call of the
    identity change comes after the successful close; a [Chdir] is made only
    for a non-empty working directory, on that directory, as the last call
    and right after a successful [Setuid].  The errors are named after the
    step: a failure inside [SetupUser] comes back as ["setup user <its
    error>"]. *)
Theorem FinalizeNamespace_order (c : Container) (p : Proc) :
  exists evs,
    calls (FinalizeNamespace F c p).2 = calls p ++ evs
    /\ (exists r, head evs = Some (CallCloseFdsFrom 3 r))
    /\ (forall l1 e l2,
          evs = l1 ++ e :: l2 -> identity_call e ->
          head l1 = Some (CallCloseFdsFrom 3 None))
    /\ (forall l1 dir res l2,
          evs = l1 ++ CallChdir dir res :: l2 ->
          l2 = [] /\ dir = WorkingDir c /\ dir <> ""
          /\ exists uid, last l1 = Some (CallSetuid uid None))
    /\ (WorkingDir c = "" -> forall dir res, CallChdir dir res ∉ evs)
    /\ ((FinalizeNamespace F c p).1 = None ->
        (exists uid, CallSetuid uid None ∈ evs)
        /\ (WorkingDir c <> "" ->
            last evs = Some (CallChdir (WorkingDir c) None)))
    /\ (forall msg,
          (FinalizeNamespace F c p).1 = Some msg ->
          (exists e, evs = [CallCloseFdsFrom 3 (Some e)]
                     /\ msg = "close open file descriptors " +:+ e)
          \/ (exists e,
                (SetupUser F (User c) (called (CallCloseFdsFrom 3 None) p)).1
                  = Some e
                /\ msg = "setup user " +:+ e)
          \/ (exists e, last evs = Some (CallChdir (WorkingDir c) (Some e))
                        /\ msg = "chdir to " +:+ WorkingDir c +:+ " " +:+ e)).
Proof.
  unfold FinalizeNamespace, SetupUser, st_body, st_bind, st_call, st_when,
    fin_Getuid, fin_Getgid, user_GetUserGroupSupplementary, fsystem_Setgroups,
    fsystem_Setgid, fsystem_Setuid, fsystem_CloseFdsFrom, fsystem_Chdir,
    fin_ext, st_return_if_err.
  cbn zeta.
  destruct (fin_CloseFdsFrom F 3 p) as [e|] eqn:Hclose; cbn.
  { eexists [_]. split; [done|]. split; [by eexists|].
    split; [intros l1 ? l2 H Hid; place H l1|].
    split; [intros l1 ? ? l2 H; place H l1|].
    split; [intros _ ? ? Hin; by apply list_elem_of_singleton in Hin|].
    split; [done|]. intros msg [= <-]. left. by eexists. }
  destruct (fin_GetUserGroupSupplementary F _ _ _ _)
    as [[[uid gid] gids]|e] eqn:Hlookup; cbn.
  2: { eexists [_; _]. rewrite <- app_assoc. split; [done|]. split; [by eexists|].
       split; [intros l1 ? l2 H Hid; place H l1|].
       split; [intros l1 ? ? l2 H; place H l1|].
       split; [intros _ ? ? Hin; by repeat (apply elem_of_cons in Hin as [?|Hin];
                 [done|]); apply elem_of_nil in Hin|].
       split; [done|]. intros msg [= <-]. right; left. by eexists. }
  destruct (fin_Setgroups F gids _) as [e|] eqn:Hgroups; cbn.
  { eexists [_; _; _]. rewrite <- !app_assoc. split; [done|].
    split; [by eexists|].
    split; [intros l1 ? l2 H Hid; place H l1|].
    split; [intros l1 ? ? l2 H; place H l1|].
    split; [intros _ ? ? Hin; by repeat (apply elem_of_cons in Hin as [?|Hin];
              [done|]); apply elem_of_nil in Hin|].
    split; [done|]. intros msg [= <-]. right; left. by eexists. }
  destruct (fin_Setgid F gid _) as [e|] eqn:Hgid; cbn.
  { eexists [_; _; _; _]. rewrite <- !app_assoc. split; [done|].
    split; [by eexists|].
    split; [intros l1 ? l2 H Hid; place H l1|].
    split; [intros l1 ? ? l2 H; place H l1|].
    split; [intros _ ? ? Hin; by repeat (apply elem_of_cons in Hin as [?|Hin];
              [done|]); apply elem_of_nil in Hin|].
    split; [done|]. intros msg [= <-]. right; left. by eexists. }
  destruct (fin_Setuid F uid _) as [e|] eqn:Huid; cbn.
  { eexists [_; _; _; _; _]. rewrite <- !app_assoc. split; [done|].
    split; [by eexists|].
    split; [intros l1 ? l2 H Hid; place H l1|].
    split; [intros l1 ? ? l2 H; place H l1|].
    split; [intros _ ? ? Hin; by repeat (apply elem_of_cons in Hin as [?|Hin];
              [done|]); apply elem_of_nil in Hin|].
    split; [done|]. intros msg [= <-]. right; left. by eexists. }
  destruct (String.eqb (WorkingDir c) "") eqn:Hwd; cbn.
  { apply String.eqb_eq in Hwd.
    eexists [_; _; _; _; _]. rewrite <- !app_assoc. split; [done|].
    split; [by eexists|].
    split; [intros l1 ? l2 H Hid; place H l1|].
    split; [intros l1 ? ? l2 H; place H l1|].
    split; [intros _ ? ? Hin; by repeat (apply elem_of_cons in Hin as [?|Hin];
              [done|]); apply elem_of_nil in Hin|].
    split; [|done]. intros _. split; [|done].
    exists uid. do 4 apply list_elem_of_further. apply list_elem_of_here. }
  apply String.eqb_neq in Hwd.
  destruct (fin_Chdir F (WorkingDir c) _) as [e|] eqn:Hchdir; cbn.
  - eexists [_; _; _; _; _; _]. rewrite <- !app_assoc. split; [done|].
    split; [by eexists|].
    split; [intros l1 ? l2 H Hid; place H l1|].
    split; [intros l1 ? ? l2 H; place H l1; by eauto|].
    split; [done|]. split; [done|].
    intros msg [= <-]. right; right. by eexists.
  - eexists [_; _; _; _; _; _]. rewrite <- !app_assoc. split; [done|].
    split; [by eexists|].
    split; [intros l1 ? l2 H Hid; place H l1|].
    split; [intros l1 ? ? l2 H; place H l1; by eauto|].
    split; [done|]. split; [|done]. intros _. split; [|done].
    exists uid. do 4 apply list_elem_of_further. apply list_elem_of_here.
Qed.

End finalize_facts.

(** ** [SysInit] and [executeProgram] *)

(** Taking a membership in a short list of calls apart. *)
Ltac sys_in :=
  repeat match goal with
  | H : _ ∈ [] |- _ => by apply elem_of_nil in H
  | H : _ ∈ _ :: _ |- _ => apply elem_of_cons in H as [H|H]; simplify_eq/=
  end.

Lemma SysInit_unfold_guard (D : Drivers) (s : Cmd) :
  (length (os_Args s) <=? 1)%nat = true ->
  SysInit D s
  = (Exit 1,
     sys_called (SysExit 1)
       (sys_called (SysPrintln "You should not invoke dockerinit manually") s)).
Proof.
  intros H. unfold SysInit, st_body, st_bind, st_when. by rewrite H.
Qed.

Section SysInit_facts.

Variable D : Drivers.

(** X9. Run with no argument beyond the program name, [SysInit] prints the
    warning and exits with status 1: it parses no flag, opens no log file
    and asks for no driver. *)
Theorem SysInit_no_arguments (s : Cmd) :
  (length (os_Args s) <= 1)%nat ->
  (SysInit D s).1 = Exit 1
  /\ sys_calls (SysInit D s).2
     = sys_calls s
       ++ [SysPrintln "You should not invoke dockerinit manually"; SysExit 1].
Proof.
  intros H. apply Nat.leb_le in H. rewrite SysInit_unfold_guard by done.
  simpl. by rewrite <- app_assoc.
Qed.

(** X10. With arguments, [SysInit] first parses them (all but the program
    name) against the declared defaults.  A driver's init function is called
    only after the parse succeeded, the log file was opened, the
    ["Executing"] line was logged and the driver named by [-driver] was
    found, and it is given the values of the flags and, as [Args], the
    arguments the parse left over.  [SysInit] returns only after that
    function returned nil. *)
Theorem SysInit_driver_call (s : Cmd) :
  (1 < length (os_Args s))%nat ->
  exists evs,
    sys_calls (SysInit D s).2 = sys_calls s ++ evs
    /\ (exists r, head evs = Some (SysParse flag_defaults (drop 1 (os_Args s)) r))
    /\ (forall l1 f args res l2,
          evs = l1 ++ SysInitFunc f args res :: l2 ->
          exists fl rest logFile,
            l1 = [SysParse flag_defaults (drop 1 (os_Args s)) (Parsed fl rest);
                  SysOpenFile "/tmp/sysinit.log" log_flags perm_0666 (Ok logFile);
                  SysLogExecuting logFile args;
                  SysGetInitFunc (fl_driver fl) (Ok f)]
            /\ args = {| ia_User := fl_user fl; ia_Gateway := fl_gateway fl;
                         ia_Ip := fl_ip fl; ia_WorkDir := fl_workDir fl;
                         ia_Privileged := fl_privileged fl; ia_Args := rest;
                         ia_Mtu := fl_mtu fl; ia_Driver := fl_driver fl;
                         ia_Console := fl_console fl; ia_Pipe := fl_pipe fl;
                         ia_Root := fl_root fl |})
    /\ ((SysInit D s).1 = Done tt <->
        exists f args, last evs = Some (SysInitFunc f args (Done None))).
Proof.
  intros Hlen. apply Nat.leb_gt in Hlen.
  unfold SysInit, executeProgram, st_body, st_bind, st_call, st_when, st_ret,
    st_pure, sys_ext, sys_do, log_Fatal.
  rewrite Hlen. cbn zeta.
  destruct (sys_Parse D flag_defaults (drop 1 (os_Args s)) s)
    as [fl rest|code] eqn:Hparse; cbn.
  2: { eexists [_]. split; [done|]. split; [by eexists|].
       split; [intros l1 ? ? ? l2 H; place H l1|].
       split; [done|]. by intros (? & ? & [= ]). }
  destruct (sys_OpenFile D _ _ _ _) as [logFile|e] eqn:Hopen; cbn.
  2: { eexists [_; _; _; _]. rewrite <- !app_assoc. split; [done|].
       split; [by eexists|].
       split; [intros l1 ? ? ? l2 H; place H l1|].
       split; [done|]. by intros (? & ? & [= ]). }
  destruct (sys_GetInitFunc D _ _) as [f|e] eqn:Hget; cbn.
  2: { eexists [_; _; _; _]. rewrite <- !app_assoc. split; [done|].
       split; [by eexists|].
       split; [intros l1 ? ? ? l2 H; place H l1|].
       split; [done|]. by intros (? & ? & [= ]). }
  destruct (sys_InitFunc D f _ _) as [[err|]|code|msg] eqn:Hrun; cbn.
  - eexists [_; _; _; _; _; _; _; _]. rewrite <- !app_assoc. split; [done|].
    split; [by eexists|].
    split; [intros l1 ? ? ? l2 H; place H l1; by eexists _, _, _|].
    split; [done|]. by intros (? & ? & [= ]).
  - eexists [_; _; _; _; _]. rewrite <- !app_assoc. split; [done|].
    split; [by eexists|].
    split; [intros l1 ? ? ? l2 H; place H l1; by eexists _, _, _|].
    split; [by eexists _, _|done].
  - eexists [_; _; _; _; _]. rewrite <- !app_assoc. split; [done|].
    split; [by eexists|].
    split; [intros l1 ? ? ? l2 H; place H l1; by eexists _, _, _|].
    split; [done|]. by intros (? & ? & [= ]).
  - eexists [_; _; _; _; _]. rewrite <- !app_assoc. split; [done|].
    split; [by eexists|].
    split; [intros l1 ? ? ? l2 H; place H l1; by eexists _, _, _|].
    split; [done|]. by intros (? & ? & [= ]).
Qed.

(** X11. How [SysInit] fails once it has arguments.  When the log file
    cannot be opened it reports that on standard error and exits with 1
    without asking for a driver.  An unknown driver makes it panic with the
    lookup's error, the init function never being called.  An error
    returned by the init function is written to the log file, then reported
    on standard error, and the process exits with 1. *)
Theorem SysInit_failures (s : Cmd) :
  (1 < length (os_Args s))%nat ->
  exists evs,
    sys_calls (SysInit D s).2 = sys_calls s ++ evs
    /\ (forall path fl pm e,
          SysOpenFile path fl pm (Err e) ∈ evs ->
          (SysInit D s).1 = Exit 1
          /\ (exists r, evs = [r; SysOpenFile path fl pm (Err e);
                               SysFatal ("Failed to open log file " +:+ e);
                               SysExit 1]))
    /\ (forall d e,
          SysGetInitFunc d (Err e) ∈ evs ->
          (SysInit D s).1 = Panic e
          /\ last evs = Some (SysGetInitFunc d (Err e)))
    /\ (forall f args err,
          SysInitFunc f args (Done (Some err)) ∈ evs ->
          (SysInit D s).1 = Exit 1
          /\ exists l logFile,
               evs = l ++ [SysLogExecuting logFile args;
                           SysGetInitFunc (ia_Driver args) (Ok f);
                           SysInitFunc f args (Done (Some err));
                           SysLogError logFile err; SysFatal err; SysExit 1]).
Proof.
  intros Hlen. apply Nat.leb_gt in Hlen.
  unfold SysInit, executeProgram, st_body, st_bind, st_call, st_when, st_ret,
    st_pure, sys_ext, sys_do, log_Fatal.
  rewrite Hlen. cbn zeta.
  destruct (sys_Parse D flag_defaults (drop 1 (os_Args s)) s)
    as [fl rest|code] eqn:Hparse; cbn.
  2: { eexists [_]. split; [done|].
       repeat split; intros; sys_in. }
  destruct (sys_OpenFile D _ _ _ _) as [logFile|e] eqn:Hopen; cbn.
  2: { eexists [_; _; _; _]. rewrite <- !app_assoc. split; [done|].
       split; [|split]; intros; sys_in. split; [done|]. by eexists. }
  destruct (sys_GetInitFunc D _ _) as [f|e] eqn:Hget; cbn.
  2: { eexists [_; _; _; _]. rewrite <- !app_assoc. split; [done|].
       split; [|split]; intros; sys_in. done. }
  destruct (sys_InitFunc D f _ _) as [[err|]|code|msg] eqn:Hrun; cbn.
  - eexists [_; _; _; _; _; _; _; _]. rewrite <- !app_assoc. split; [done|].
    split; [|split]; intros; sys_in. split; [done|].
    by eexists [_; _], _.
  - eexists [_; _; _; _; _]. rewrite <- !app_assoc. split; [done|].
    split; [|split]; intros; sys_in.
  - eexists [_; _; _; _; _]. rewrite <- !app_assoc. split; [done|].
    split; [|split]; intros; sys_in.
  - eexists [_; _; _; _; _]. rewrite <- !app_assoc. split; [done|].
    split; [|split]; intros; sys_in.
Qed.

End SysInit_facts.

Lemma SysInit_no_arguments_witness :
  (SysInit (sys_sample (Ok 3) (Done None)) (cmd_of ["dockerinit"])).1 = Exit 1
  /\ sys_calls (SysInit (sys_sample (Ok 3) (Done None)) (cmd_of ["dockerinit"])).2
     = [SysPrintln "You should not invoke dockerinit manually"; SysExit 1].
Proof.
  apply (SysInit_no_arguments (sys_sample (Ok 3) (Done None))
           (cmd_of ["dockerinit"])).
  simpl. lia.
Defined.

Lemma SysInit_driver_call_witness :
  (SysInit (sys_sample (Ok 3) (Done None))
     (cmd_of ["dockerinit"; "native"; "/bin/sh"])).1 = Done tt
  /\ exists f args,
       last (sys_calls (SysInit (sys_sample (Ok 3) (Done None))
                          (cmd_of ["dockerinit"; "native"; "/bin/sh"])).2)
       = Some (SysInitFunc f args (Done None))
       /\ ia_Driver args = "native" /\ ia_Args args = ["/bin/sh"]
       /\ ia_Mtu args = 1500 /\ ia_Root args = ".".
Proof.
  destruct (SysInit_driver_call (sys_sample (Ok 3) (Done None))
              (cmd_of ["dockerinit"; "native"; "/bin/sh"]))
    as (evs & Ht & _ & _ & Hret); [simpl; lia|].
  change (sys_calls (cmd_of ["dockerinit"; "native"; "/bin/sh"]) ++ evs)
    with evs in Ht.
  subst evs. split.
  - apply Hret. eexists _, _. reflexivity.
  - eexists _, _. split; [reflexivity|]. by repeat split.
Defined.

Lemma SysInit_failures_witness :
  (SysInit (sys_sample (Ok 3) (Done (Some "exec: not found")))
     (cmd_of ["dockerinit"; "native"; "/bin/sh"])).1 = Exit 1
  /\ (SysInit (sys_sample (Ok 3) (Done None))
        (cmd_of ["dockerinit"; "bogus"])).1 = Panic "unknown driver bogus".
Proof.
  split.
  - destruct (SysInit_failures (sys_sample (Ok 3) (Done (Some "exec: not found")))
                (cmd_of ["dockerinit"; "native"; "/bin/sh"]))
      as (evs & Ht & _ & _ & Hrun); [simpl; lia|].
    change (sys_calls (cmd_of ["dockerinit"; "native"; "/bin/sh"]) ++ evs)
      with evs in Ht.
    subst evs.
    edestruct Hrun as [Hexit _]; [|exact Hexit].
    do 4 apply list_elem_of_further. apply list_elem_of_here.
  - destruct (SysInit_failures (sys_sample (Ok 3) (Done None))
                (cmd_of ["dockerinit"; "bogus"]))
      as (evs & Ht & _ & Hget & _); [simpl; lia|].
    change (sys_calls (cmd_of ["dockerinit"; "bogus"]) ++ evs) with evs in Ht.
    subst evs.
    edestruct Hget as [Hpanic _]; [|exact Hpanic].
    do 3 apply list_elem_of_further. apply list_elem_of_here.
Defined.

(** ** More on [Init]: the parent-death signal *)

(** Capture and restore, as [Init] chains them: between the two nothing
    changes the signal, so the restore finds what was captured. *)
Lemma emits_capture_restore (X : Externals) {B : Type}
    (g : string -> outcome) (k : error -> Go outcome B)
    (Qn : B -> list Event -> Prop) (Qr : outcome -> list Event -> Prop) :
  (forall e, Qr (g e) [EvGetParentDeathSignal (Err e)]) ->
  (forall p err evs,
     inert_restore p err evs ->
     emits (k err)
       (fun b evs2 => Qn b (EvGetParentDeathSignal (Ok p) :: evs ++ evs2))
       (fun r evs2 => Qr r (EvGetParentDeathSignal (Ok p) :: evs ++ evs2))) ->
  emits (bind (system_GetParentDeathSignal X)
           (fun r =>
              match r with
              | Ok p => bind (call (RestoreParentDeathSignal X p)) k
              | Err e => ret (g e)
              end)) Qn Qr.
Proof.
  intros Herr Hok w.
  set (m := bind _ _).
  destruct (on_GetParentDeathSignal X w) as [e|] eqn:Hget.
  { assert (m w = (Return (g e), log (EvGetParentDeathSignal (Err e)) w)) as ->.
    { unfold m, bind, system_GetParentDeathSignal, ext. cbv zeta.
      by rewrite Hget. }
    exists [EvGetParentDeathSignal (Err e)]. split; [done|]. apply Herr. }
  set (w1 := log (EvGetParentDeathSignal (Ok (pdeathsig w))) w).
  assert (m w = let '(a, w2) := RestoreParentDeathSignal X (pdeathsig w) w1 in
                k a w2) as ->.
  { unfold m, bind, call, system_GetParentDeathSignal, ext. cbv zeta.
    rewrite Hget. fold w1.
    by destruct (RestoreParentDeathSignal X (pdeathsig w) w1). }
  assert (exists err evs,
            inert_restore (pdeathsig w) err evs
            /\ (RestoreParentDeathSignal X (pdeathsig w) w1).1 = err
            /\ trace (RestoreParentDeathSignal X (pdeathsig w) w1).2
               = trace w1 ++ evs) as (err & evs & Hinert & Herr1 & Ht1).
  { unfold RestoreParentDeathSignal, body, bind, system_GetParentDeathSignal, ext.
    destruct (pdeathsig w =? 0) eqn:H0; cbn.
    { apply Z.eqb_eq in H0. exists None, []. rewrite app_nil_r.
      split; [by left|done]. }
    destruct (on_GetParentDeathSignal X w1) as [e|]; cbn.
    { eexists _, [_]. split; [right; right; by eexists|done]. }
    rewrite Z.eqb_refl. cbn.
    eexists None, [_]. split; [by right; left|done]. }
  destruct (RestoreParentDeathSignal X (pdeathsig w) w1) as [err' w2].
  simpl in Herr1, Ht1. subst err'.
  destruct (Hok (pdeathsig w) err evs Hinert w2) as (evs2 & Ht2 & HQ).
  exists (EvGetParentDeathSignal (Ok (pdeathsig w)) :: evs ++ evs2).
  split.
  - rewrite Ht2, Ht1. unfold w1. simpl. by rewrite <- !app_assoc.
  - exact HQ.
Qed.

Ltac restore_step :=
  lazymatch goal with
  | |- emits (bind (system_GetParentDeathSignal _) _) _ _ =>
      apply emits_capture_restore; [intros ?|intros ? ? ? ?]
  | |- _ => emits_step
  end.

Ltac restore_leaf :=
  cbv beta iota; cbn [app];
  repeat match goal with
  | H : inert_restore _ _ _ |- _ =>
      destruct H as [(? & ? & ?)|[(? & ?)|(? & ? & ?)]]; simplify_eq
  end;
  open_mappings;
  let Hin := fresh "Hin" in
  (split;
   [ intros ? ? Hin; in_inv Hin
   | intros ? ? ? Hin; in_inv Hin; (split; [reflexivity|eexists; find_in]) ]).

Lemma Init_no_restore X c u cp sp args w :
  exists evs,
    trace (Init X c u cp sp args w).2 = trace w ++ evs /\ no_restore evs.
Proof.
  unfold Init. apply (emits_body _ (fun _ evs => no_restore evs)).
  repeat restore_step.
  all: restore_leaf.
Qed.

(** ** More on [Init]: the order of the steps *)

Lemma staged_weaken (n m : nat) (l : list Event) :
  (n <= m)%nat -> staged m l -> staged n l.
Proof.
  revert n m. induction l as [|e l IH]; intros n m Hnm; simpl; [done|].
  destruct (stage e) as [k|]; [|by apply IH].
  intros [Hk Hl]. split; [lia|done].
Qed.

Lemma staged_app (n s : nat) (seg l : list Event) :
  Forall (at_stage s) seg -> (n <= s)%nat -> staged s l -> staged n (seg ++ l).
Proof.
  intros Hseg Hns Hl. revert n Hns.
  induction Hseg as [|e seg [He|He] _ IH]; intros n Hns; simpl.
  - by apply (staged_weaken n s).
  - rewrite He. split; [done|]. by apply IH.
  - rewrite He. by apply IH.
Qed.

Lemma staged_bound (n : nat) (l : list Event) :
  staged n l -> forall e m, e ∈ l -> stage e = Some m -> (n <= m)%nat.
Proof.
  revert n. induction l as [|x l IH]; intros n Hl e m Hin He.
  - by apply elem_of_nil in Hin.
  - simpl in Hl. apply elem_of_cons in Hin as [->|Hin].
    + rewrite He in Hl. by destruct Hl.
    + destruct (stage x) as [k|]; [|by eapply IH].
      destruct Hl as [Hk Hl]. specialize (IH k Hl e m Hin He). lia.
Qed.

Lemma staged_sound (n : nat) (l : list Event) :
  staged n l ->
  forall l1 e1 l2 e2 l3 n1 n2,
    l = l1 ++ e1 :: l2 ++ e2 :: l3 ->
    stage e1 = Some n1 -> stage e2 = Some n2 -> (n1 <= n2)%nat.
Proof.
  revert n. induction l as [|x l IH]; intros n Hl l1 e1 l2 e2 l3 n1 n2 Heq H1 H2.
  - by destruct l1.
  - destruct l1 as [|y l1]; simpl in Heq; injection Heq as -> ->.
    + simpl in Hl. rewrite H1 in Hl. destruct Hl as [_ Hl].
      eapply staged_bound; [exact Hl| |exact H2].
      apply elem_of_app. right. apply list_elem_of_here.
    + simpl in Hl. destruct (stage y) as [k|].
      * destruct Hl as [_ Hl]. by eapply IH.
      * by eapply IH.
Qed.

Lemma env_at_stage evs : Forall env_event evs -> Forall (at_stage 1) evs.
Proof.
  intros H. eapply Forall_impl; [exact H|]. intros [] He; try done; by left.
Qed.

Lemma net_at_stage evs : Forall net_event evs -> Forall (at_stage 6) evs.
Proof.
  intros H. eapply Forall_impl; [exact H|]. intros [] He; try done; by left.
Qed.

Lemma pdeath_at_stage evs : Forall pdeath_event evs -> Forall (at_stage 15) evs.
Proof.
  intros H. eapply Forall_impl; [exact H|].
  intros [] He; try done; first [by left|by right].
Qed.

Ltac staged_leaf :=
  cbv beta iota; cbn [app]; open_mappings;
  repeat first
    [ exact I
    | eapply staged_app;
      [ by eauto using env_at_stage, net_at_stage, pdeath_at_stage | lia | ]
    | cbn [staged stage]; split; [lia|] ].

Lemma Init_staged X c u cp sp args w :
  exists evs,
    trace (Init X c u cp sp args w).2 = trace w ++ evs /\ staged 0 evs.
Proof.
  unfold Init. apply (emits_body _ (fun _ evs => staged 0 evs)).
  repeat emits_step.
  all: staged_leaf.
Qed.

(** ** More on [Init]: the arguments of the set-up *)

Lemma env_configured c cp sp r0 evs :
  Forall env_event evs -> Forall (as_configured c cp sp r0) evs.
Proof. intros H. eapply Forall_impl; [exact H|]. by intros []. Qed.

Lemma net_configured c cp sp r0 evs :
  Forall net_event evs -> Forall (as_configured c cp sp r0) evs.
Proof. intros H. eapply Forall_impl; [exact H|]. by intros []. Qed.

Lemma pdeath_configured c cp sp r0 evs :
  Forall pdeath_event evs -> Forall (as_configured c cp sp r0) evs.
Proof. intros H. eapply Forall_impl; [exact H|]. by intros []. Qed.

Ltac eqb_facts :=
  repeat match goal with
  | H : negb (String.eqb _ _) = true |- _ =>
      apply negb_true_iff, String.eqb_neq in H
  | H : negb (String.eqb _ _) = false |- _ =>
      apply negb_false_iff, String.eqb_eq in H
  end.

Ltac configured_list :=
  repeat first
    [ apply Forall_nil_2
    | apply Forall_app_2;
      [ by eauto using env_configured, net_configured, pdeath_configured | ]
    | apply Forall_cons_2; [ cbn [as_configured]; by repeat split | ] ].

Ltac skipped_hyp :=
  let Hin := fresh "Hin" in
  first [ done | intros Hin; in_inv Hin; find_in ].

Ltac configured_leaf :=
  cbv beta iota; cbn [app]; open_mappings; eqb_facts;
  (split;
   [ eexists _, _; (split; [reflexivity|configured_list])
   | split; [|split];
     [ intros ?; first [ done | split; [intros ?|]; skipped_hyp ]
     | intros ?; first [ done | intros ? ? ? ?; skipped_hyp ]
     | intros ?; first [ done | intros ?; skipped_hyp ] ] ]).

Lemma Init_configured X c u cp sp args w :
  exists evs,
    trace (Init X c u cp sp args w).2 = trace w ++ evs
    /\ (exists r0 rest,
          evs = EvResolveRootfs u r0 :: rest
          /\ Forall (as_configured c cp sp r0) rest)
    /\ nothing_skipped c cp evs.
Proof.
  unfold Init.
  apply (emits_body _ (fun _ evs =>
    (exists r0 rest,
       evs = EvResolveRootfs u r0 :: rest
       /\ Forall (as_configured c cp sp r0) rest)
    /\ nothing_skipped c cp evs)).
  repeat emits_step.
  all: configured_leaf.
Qed.

(** ** More on [Init]: the log file *)

Lemma last_skip {A} (x y : A) (l : list A) :
  last l = Some y -> last (x :: l) = Some y.
Proof. destruct l; [done|]. by rewrite last_cons_cons. Qed.

Lemma last_skip_app {A} (y : A) (l1 l2 : list A) :
  last l2 = Some y -> last (l1 ++ l2) = Some y.
Proof. intros H. rewrite last_app. by rewrite H. Qed.

Ltac nolog_leaf :=
  cbv beta iota; cbn [app]; open_mappings;
  let Hin := fresh "Hin" in
  intros ? ? ? ? Hin; in_inv Hin;
  (split; [reflexivity|]);
  repeat first [reflexivity | apply last_skip | apply last_skip_app].

Lemma Init_nolog X c u cp sp args w :
  exists evs,
    trace (Init X c u cp sp args w).2 = trace w ++ evs
    /\ forall path flags perm e,
         EvOpenFile path flags perm (Err e) ∈ evs ->
         (Init X c u cp sp args w).1 = Returned None
         /\ last evs = Some (EvOpenFile path flags perm (Err e)).
Proof.
  unfold Init.
  apply (emits_body _ (fun out evs =>
    forall path flags perm e,
      EvOpenFile path flags perm (Err e) ∈ evs ->
      out = Returned None
      /\ last evs = Some (EvOpenFile path flags perm (Err e)))).
  repeat emits_step.
  all: nolog_leaf.
Qed.

(** ** More on [Init]: whole runs *)

Section Init_more.

Variables (X : Externals) (c : Container) (uncleanRootfs consolePath : string)
          (syncPipe : SyncPipe) (args : list string) (w : World).

(** X12. In the child (the clone answered 0) [Init] logs, closes the nested
    pipe that [NewSyncPipe] gave, and execs [args[0]] with all of [args] as
    argv and the declared environment of the container: the process image
    is replaced when the exec succeeds, and the error of the exec is returned
    as it is when it fails.  With no [args] it panics after the close.  The
    child finds no process, writes no file, waits for nothing and does not
    exit. *)
Theorem Init_child :
  exists evs,
    trace (Init X c uncleanRootfs consolePath syncPipe args w).2 = trace w ++ evs
    /\ forall flags,
         EvClone flags (Ok 0) ∈ evs ->
         (exists l sPipe tail,
            evs = l ++ EvNewSyncPipe (Ok sPipe) :: EvClone flags (Ok 0)
                    :: EvPrintln "In child." :: EvPipeClose sPipe :: tail
            /\ match args with
               | [] =>
                   tail = []
                   /\ (Init X c uncleanRootfs consolePath syncPipe args w).1
                      = Panicked
               | argv0 :: _ =>
                   exists r,
                     tail = [EvExec argv0 args (Env c) r]
                     /\ (Init X c uncleanRootfs consolePath syncPipe args w).1
                        = match r with
                          | None => Replaced
                          | Some e => Returned (Some e)
                          end
               end)
         /\ forall e, e ∈ evs -> ~ parent_only e.
Proof.
  destruct (Init_shape X c uncleanRootfs consolePath syncPipe args w)
    as (evs & Ht & Hrun).
  exists evs. split; [done|].
  intros flags Hclone.
  apply Init_run_split in Hrun as (pre & post & -> & Hpre & Hend).
  apply elem_of_setup in Hclone; [|done..].
  assert (forall e, e ∈ pre -> ~ parent_only e) as Hquiet.
  { intros e Hin Hp. rewrite Forall_forall in Hpre. apply Hpre in Hin.
    by destruct e. }
  destruct Hend as [[-> _]|[[_ [e ->]]|Hesc]]; [in_inv Hclone..|].
  destruct Hesc; unfold mapped, spawned in *; open_mappings;
    in_inv Hclone; try done.
  - split.
    + eexists (pre ++ [_; _; _]), _, _. rewrite <- app_assoc.
      split; [reflexivity|]. done.
    + intros e Hin. apply elem_of_app in Hin as [Hin|Hin]; [by apply Hquiet|].
      in_inv Hin; subst; exact (fun H => H).
  - split.
    + eexists (pre ++ [_; _; _]), _, _. rewrite <- app_assoc.
      split; [reflexivity|]. by eexists.
    + intros e' Hin. apply elem_of_app in Hin as [Hin|Hin]; [by apply Hquiet|].
      in_inv Hin; subst; exact (fun H => H).
  - split.
    + eexists (pre ++ [_; _; _]), _, _. rewrite <- app_assoc.
      split; [reflexivity|]. by eexists.
    + intros e' Hin. apply elem_of_app in Hin as [Hin|Hin]; [by apply Hquiet|].
      in_inv Hin; subst; exact (fun H => H).
Qed.

(** X13. In the parent, a wait on the child is made only after the child
    was found, both mapping files were written and, right before the wait,
    the nested pipe was closed.  When the wait fails, the child is killed
    and the error is ["wait: <cause>"]; when it succeeds, the process
    exits. *)
Theorem Init_parent_order :
  exists evs,
    trace (Init X c uncleanRootfs consolePath syncPipe args w).2 = trace w ++ evs
    /\ forall pid st,
         EvWait pid st ∈ evs ->
         exists l sPipe flags tail,
           evs = l ++ EvNewSyncPipe (Ok sPipe) :: EvClone flags (Ok pid)
                   :: EvPrintln "In parent." :: EvFindProcess pid (Ok pid)
                   :: EvWriteFile (uid_map pid) "0 1017 1" perm_0644 Written
                   :: EvWriteFile (gid_map pid) "0 1017 1" perm_0644 Written
                   :: EvPipeClose sPipe :: EvWait pid st :: tail
           /\ pid <> 0
           /\ match st with
              | Ok status =>
                  tail = [EvExit (WaitStatus_ExitStatus status)]
              | Err e =>
                  (exists k, tail = [EvKill pid SIGKILL k])
                  /\ (Init X c uncleanRootfs consolePath syncPipe args w).1
                     = Returned (Some ("wait: " +:+ e))
              end.
Proof.
  destruct (Init_shape X c uncleanRootfs consolePath syncPipe args w)
    as (evs & Ht & Hrun).
  exists evs. split; [done|].
  intros pid st Hwait.
  apply Init_run_split in Hrun as (pre & post & -> & Hpre & Hend).
  apply elem_of_setup in Hwait; [|done..].
  destruct Hend as [[-> _]|[[_ [e ->]]|Hesc]]; [in_inv Hwait..|].
  destruct Hesc; unfold mapped, spawned in *; open_mappings; in_inv Hwait.
  - eexists (pre ++ [_; _; _]), _, _, _. rewrite <- app_assoc.
    split; [reflexivity|]. split; [done|]. split; [by eexists|done].
  - eexists (pre ++ [_; _; _]), _, _, _. rewrite <- app_assoc.
    split; [reflexivity|]. by split.
Qed.

(** X14. [Init] never installs a parent-death signal: the value it
    captures is the one in force and nothing in between changes it, so the
    restore is given what it reads again and stops there (for 0 it does not
    even read).  The only signal a run sends is the SIGKILL of a child that
    a clone answered. *)
Theorem Init_restore_is_inert :
  exists evs,
    trace (Init X c uncleanRootfs consolePath syncPipe args w).2 = trace w ++ evs
    /\ (forall sig r, EvParentDeathSignal sig r ∉ evs)
    /\ (forall pid sig r,
          EvKill pid sig r ∈ evs ->
          sig = SIGKILL /\ exists flags, EvClone flags (Ok pid) ∈ evs).
Proof.
  destruct (Init_no_restore X c uncleanRootfs consolePath syncPipe args w)
    as (evs & Ht & Hnone & Hkill).
  by exists evs.
Qed.

(** X15. The steps of [Init] are taken in the order of the source and none
    is taken up again: of two numbered calls of a run, the later one never
    belongs to an earlier step. *)
Theorem Init_step_order :
  exists evs,
    trace (Init X c uncleanRootfs consolePath syncPipe args w).2 = trace w ++ evs
    /\ forall l1 e1 l2 e2 l3 n1 n2,
         evs = l1 ++ e1 :: l2 ++ e2 :: l3 ->
         stage e1 = Some n1 -> stage e2 = Some n2 -> (n1 <= n2)%nat.
Proof.
  destruct (Init_staged X c uncleanRootfs consolePath syncPipe args w)
    as (evs & Ht & Hst).
  exists evs. split; [done|]. by apply (staged_sound 0).
Qed.

(** X16. Every run of [Init] starts by resolving [uncleanRootfs], and each
    call of the set-up gets what the source gives it: the mount namespace
    the resolved rootfs, the console path and the container; the console is
    opened and made the controlling terminal only for a non-empty console
    path, the hostname set only when it is non-empty, the restriction
    applied, with scope ["sys"], only under a non-empty ["restrictions"]
    entry of the context.  No such step is skipped where the configuration
    asks for it: the run gets past it only over its success. *)
Theorem Init_setup_arguments :
  exists evs,
    trace (Init X c uncleanRootfs consolePath syncPipe args w).2 = trace w ++ evs
    /\ (exists rootfs rest,
          evs = EvResolveRootfs uncleanRootfs rootfs :: rest
          /\ Forall (as_configured c consolePath syncPipe rootfs) rest)
    /\ nothing_skipped c consolePath evs.
Proof. apply Init_configured. Qed.

(** X17. A failure to open the log file is the only way to a nil return,
    and it always leads there: whenever the opening fails, on any path, it
    is the last call of the run and [Init] returns nil; and a run that
    returns nil ended on such a failure. *)
Theorem Init_nil_iff_no_log :
  exists evs,
    trace (Init X c uncleanRootfs consolePath syncPipe args w).2 = trace w ++ evs
    /\ (forall path flags perm e,
          EvOpenFile path flags perm (Err e) ∈ evs ->
          (Init X c uncleanRootfs consolePath syncPipe args w).1 = Returned None
          /\ last evs = Some (EvOpenFile path flags perm (Err e)))
    /\ ((Init X c uncleanRootfs consolePath syncPipe args w).1 = Returned None ->
        exists e,
          last evs
          = Some (EvOpenFile "/tmp/nsinit.log" log_flags perm_0666 (Err e))).
Proof.
  destruct (Init_nolog X c uncleanRootfs consolePath syncPipe args w)
    as (evs & Ht & Hfail).
  exists evs. split; [done|]. split; [done|].
  intros Hnil.
  destruct (Init_shape X c uncleanRootfs consolePath syncPipe args w)
    as (evs' & Ht' & Hrun).
  rewrite Ht in Ht'. apply app_inv_head in Ht' as <-.
  rewrite Hnil in Hrun.
  apply Init_run_split in Hrun as (pre & post & -> & Hpre & Hend).
  destruct Hend as [[_ [e [=]]]|[[_ [e ->]]|Hesc]].
  - exists e. by rewrite last_app.
  - inversion Hesc.
Qed.

End Init_more.
